(** * Volumetric display ingest core: the receiver [pointvision_update.py]

    A shallow embedding of [src/python/update/pointvision_update.py] (the
    receiver in use) and, in [Module Legacy], of the parts of the older
    [src/python/pointvision_update.py] that behave differently.

    - the shared region [voxel_double_buffer_t] is a record whose [buffers]
      field is the flat byte array of two pages, read as a function from the
      flat index to a byte, and whose [page] field is one [c_uint8];
    - the processing thread's loop body is written in a small state and
      exception monad; every access to the shared region is recorded in a
      trace of events, so that ordering properties are statements about
      the trace;
    - [frame_queue] is the [deque(maxlen=1)] of the source;
    - [handle_client] reads from the bytes the peer sends before it closes
      its end; [gzip.decompress] is a parameter of the development;
    - [Module Producer] holds the integer parts of the producer
      [src/python/update/vortexstream_update.py]: [is_in_bounds],
      [bresenham_3d] and [generate_packet], with [gzip.compress] as a
      parameter. *)

From Stdlib Require Import ZArith Lia.
From Stdlib.Strings Require Import Byte.
From stdpp Require Import base option list gmap.
From Equations Require Import Equations.

Local Open Scope Z_scope.

(** ** Configuration *)

Definition voxels_x : Z := 128.
Definition voxels_y : Z := 128.
Definition voxels_z : Z := 64.
Definition voxels_count : Z := voxels_x * voxels_y * voxels_z.

(** ** Bytes *)

Definition byte_to_Z (b : byte) : Z := Z.of_N (Byte.to_N b).

(** Storing a Python int into a [ctypes.c_uint8]: no range check, the value
    is truncated to its low eight bits. *)
Definition c_uint8 (v : Z) : byte :=
  default x00 (Byte.of_N (Z.to_N (v mod 256))).

(** ** The shared region *)

(** [class voxel_double_buffer_t(ctypes.Structure)]. [buffers] is
    [c_uint8 * voxels_z * voxels_x * voxels_y * 2]: in memory, page 0 then
    page 1, each in row-major order of [(y, x, z)]. *)
Record voxel_double_buffer_t := mk_buffer {
  buffers : Z -> byte;
  page : byte;
  bpc : byte;
  flags : Z;
  rpm : Z;
  uspf : Z
}.

(** [ctypes.sizeof(voxel_double_buffer_t)]: the two pages, two bytes and
    three 16-bit fields. *)
Definition sizeof_voxel_double_buffer_t : Z := 2 * voxels_count + 1 + 1 + 2 + 2 + 2.

(** Flat index in [buffers] of element [[y, x, z]] of the
    [(voxels_y, voxels_x, voxels_z)]-shaped view of page [pg]. *)
Definition voxel_index (pg y x z : Z) : Z :=
  pg * voxels_count + (y * voxels_x + x) * voxels_z + z.

Definition in_page (pg j : Z) : bool :=
  (pg * voxels_count <=? j) && (j <? (pg + 1) * voxels_count).

Definition set_buffers (b : voxel_double_buffer_t) (f : Z -> byte) : voxel_double_buffer_t :=
  mk_buffer f (page b) (bpc b) (flags b) (rpm b) (uspf b).

Definition set_page (b : voxel_double_buffer_t) (p : byte) : voxel_double_buffer_t :=
  mk_buffer (buffers b) p (bpc b) (flags b) (rpm b) (uspf b).

(** ** Points *)

(** One row of [point_data]: four [uint8]. *)
Record point := mk_point { pt_x : byte; pt_y : byte; pt_z : byte; pt_pix : byte }.

(** [np.frombuffer(data, dtype=np.uint8).reshape(-1, 4)]: the rows of four
    bytes; numpy raises [ValueError] when the length is not a multiple of
    four (here [None]). *)
Fixpoint reshape4 (data : list byte) : option (list point) :=
  match data with
  | [] => Some []
  | x :: y :: z :: c :: rest =>
      match reshape4 rest with
      | Some pts => Some (mk_point x y z c :: pts)
      | None => None
      end
  | _ => None
  end.

(** One entry of [valid_mask = (x < voxels_x) & (y < voxels_y) & (z < voxels_z)]. *)
Definition valid_point (p : point) : bool :=
  (byte_to_Z (pt_x p) <? voxels_x) &&
  (byte_to_Z (pt_y p) <? voxels_y) &&
  (byte_to_Z (pt_z p) <? voxels_z).

(** [np.sum(~valid_mask)]. *)
Definition count_invalid (pts : list point) : nat :=
  length (filter (fun p => valid_point p = false) pts).

(** ** Events, exceptions, and the monad of the processing thread *)

(** Accesses to the shared region, in program order. [EvFill] and [EvStore]
    name the page (0 or 1) whose view is written. *)
Inductive event :=
| EvReadPage (p : byte)                  (* [buffer.page] read *)
| EvFill (pg : Z)                        (* [voxels.fill(0)] *)
| EvStore (pg y x z : Z) (c : byte)      (* one element of [voxels[y, x, z] = pix] *)
| EvWritePage (p : byte).                (* [buffer.page = write_page] *)

Inductive py_exception :=
| IndexError
| ValueError
| FileNotFoundError
| OSError.

Inductive log_line :=
| LogFiltered (num_invalid : nat)              (* "Warning: Filtered n out-of-bound points" *)
| LogProcessed (frames : Z) (points : nat)     (* "Processed n frames (m points)" *)
| LogFrameError (e : py_exception).            (* "Error processing frame: e" *)

(** What the processing thread owns: the mapped region, the two counters of
    its loop, what it has printed, and the trace of its accesses. *)
Record rstate := mk_rstate {
  shm : voxel_double_buffer_t;
  frame_count : Z;
  last_print : Z;
  stdout : list log_line;
  trace : list event
}.

Inductive result (A : Type) :=
| Ok (a : A)
| Raise (e : py_exception).
Arguments Ok {A} a.
Arguments Raise {A} e.

Definition M (A : Type) : Type := rstate -> result A * rstate.

Definition ret {A} (a : A) : M A := fun s => (Ok a, s).
Definition raise {A} (e : py_exception) : M A := fun s => (Raise e, s).
Definition bind {A B} (m : M A) (k : A -> M B) : M B :=
  fun s => match m s with
           | (Ok a, s') => k a s'
           | (Raise e, s') => (Raise e, s')
           end.
(** [try: m  except Exception as e: h e] *)
Definition try_except {A} (m : M A) (h : py_exception -> M A) : M A :=
  fun s => match m s with
           | (Ok a, s') => (Ok a, s')
           | (Raise e, s') => h e s'
           end.

Declare Scope py_scope.
Delimit Scope py_scope with py.
Notation "'let*' x ':=' m 'in' k" := (bind m (fun x => k))
  (at level 10, x name, m at level 100, k at level 200) : py_scope.
Notation "'exec' m 'in' k" := (bind m (fun _ => k))
  (at level 10, m at level 100, k at level 200) : py_scope.

Definition with_shm (f : voxel_double_buffer_t -> voxel_double_buffer_t) (s : rstate) : rstate :=
  mk_rstate (f (shm s)) (frame_count s) (last_print s) (stdout s) (trace s).

Definition emit (e : event) (s : rstate) : rstate :=
  mk_rstate (shm s) (frame_count s) (last_print s) (stdout s) (trace s ++ [e]).

Definition print (l : log_line) : M unit :=
  fun s => (Ok tt, mk_rstate (shm s) (frame_count s) (last_print s) (stdout s ++ [l]) (trace s)).

(** [buffer.page] *)
Definition read_page : M Z :=
  fun s => (Ok (byte_to_Z (page (shm s))), emit (EvReadPage (page (shm s))) s).

(** [buffer.page = v] *)
Definition write_page_field (v : Z) : M unit :=
  fun s => (Ok tt, emit (EvWritePage (c_uint8 v)) (with_shm (fun b => set_page b (c_uint8 v)) s)).

(** [l[i]] for a Python list: a negative index counts from the end, an
    index outside [-len, len) raises [IndexError]. *)
Definition py_list_index {A} (l : list A) (i : Z) : option A :=
  let n := Z.of_nat (length l) in
  if (0 <=? i) && (i <? n) then l !! Z.to_nat i
  else if (- n <=? i) && (i <? 0) then l !! Z.to_nat (i + n)
  else None.

(** [voxel_views]: the cached views of [buffer.buffers[0]] and
    [buffer.buffers[1]], each named here by its page. *)
Definition voxel_views : list Z := [0; 1].

Definition view_at (i : Z) : M Z :=
  match py_list_index voxel_views i with
  | Some pg => ret pg
  | None => raise IndexError
  end.

(** The array after [voxels.fill(0)] on the view of page [pg]. *)
Definition clear_page (pg : Z) (f : Z -> byte) : Z -> byte :=
  fun j => if in_page pg j then x00 else f j.

(** The array after [voxels[y, x, z] = c] on the view of page [pg]. *)
Definition poke (pg : Z) (p : point) (f : Z -> byte) : Z -> byte :=
  fun j => if j =? voxel_index pg (byte_to_Z (pt_y p)) (byte_to_Z (pt_x p)) (byte_to_Z (pt_z p))
           then pt_pix p else f j.

Definition store_event (pg : Z) (p : point) : event :=
  EvStore pg (byte_to_Z (pt_y p)) (byte_to_Z (pt_x p)) (byte_to_Z (pt_z p)) (pt_pix p).

(** [voxels.fill(0)] on the view of page [pg]. *)
Definition fill_zero (pg : Z) : M unit :=
  fun s => (Ok tt,
            emit (EvFill pg)
              (with_shm (fun b => set_buffers b (clear_page pg (buffers b))) s)).

(** One element assignment [voxels[y, x, z] = c] on the view of page [pg]. *)
Definition store_voxel (pg : Z) (p : point) : M unit :=
  fun s =>
    (Ok tt,
     emit (store_event pg p)
       (with_shm (fun b => set_buffers b (poke pg p (buffers b))) s)).

(** [voxels[y, x, z] = pix] with index arrays: the elements are assigned in
    order, so a later row overwrites an earlier one at the same voxel. *)
Fixpoint scatter (pg : Z) (pts : list point) : M unit :=
  match pts with
  | [] => ret tt
  | p :: rest => (exec store_voxel pg p in scatter pg rest)%py
  end.

(** The end of the loop body: [frame_count += 1] and the report every 100
    frames. *)
Definition count_frame (points : nat) : M unit :=
  fun s =>
    let fc := frame_count s + 1 in
    if 100 <=? fc - last_print s
    then (Ok tt, mk_rstate (shm s) fc fc (stdout s ++ [LogProcessed fc points]) (trace s))
    else (Ok tt, mk_rstate (shm s) fc (last_print s) (stdout s) (trace s)).

(** ** The loop body of [process_data] *)

(** How one iteration that took a payload ends. *)
Inductive frame_outcome :=
| Flipped (num_invalid : nat) (written : nat)   (* reached [buffer.page = write_page] *)
| Skipped                                       (* [if num_points == 0: continue] *)
| Failed (e : py_exception).                    (* [except Exception as e] *)

(** The [try] block, for [data] taken from the queue. *)
Definition process_frame_body (data : list byte) : M frame_outcome :=
  (let* current_page := read_page in
   let write_page := 1 - current_page in
   let* voxels := view_at write_page in
   exec fill_zero voxels in
   let num_points := (length data / 4)%nat in
   if (num_points =? 0)%nat then ret Skipped
   else
     let* point_data :=
       match (if (Z.of_nat num_points <=? voxels_count)
              then reshape4 data else reshape4 data) with
       | Some rows => ret rows
       | None => raise ValueError
       end in
     let num_invalid := count_invalid point_data in
     let* kept :=
       (if (0 <? num_invalid)%nat
        then (exec (if (10 <? num_invalid)%nat
                    then print (LogFiltered num_invalid) else ret tt) in
              ret (filter (fun p => valid_point p = true) point_data))
        else ret point_data) in
     exec (if (0 <? length kept)%nat then scatter voxels kept else ret tt) in
     exec write_page_field write_page in
     exec count_frame (length kept) in
     ret (Flipped num_invalid (length kept)))%py.

Definition process_frame (data : list byte) : M frame_outcome :=
  try_except (process_frame_body data)
    (fun e => (exec print (LogFrameError e) in ret (Failed e))%py).

(** The processing thread over the payloads it takes one after the other. *)
Fixpoint process_frames (frames : list (list byte)) (s : rstate) : list frame_outcome * rstate :=
  match frames with
  | [] => ([], s)
  | data :: rest =>
      match process_frame data s with
      | (Ok o, s') => let '(os, s'') := process_frames rest s' in (o :: os, s'')
      | (Raise e, s') => ([Failed e], s')
      end
  end.

(** The array after the element assignments of [scatter], in order. *)
Definition paint (pg : Z) (pts : list point) (f : Z -> byte) : Z -> byte :=
  fold_left (fun g p => poke pg p g) pts f.

(** A region as the driver leaves it: both pages hold [fillb], [page] is [p]. *)
Definition region (fillb p : byte) : voxel_double_buffer_t :=
  mk_buffer (fun _ => fillb) p x03 0 0 0.

Definition start_state (b : voxel_double_buffer_t) : rstate := mk_rstate b 0 0 [] [].

(** [write_page = 1 - current_page], for the value [page] holds in [s]. *)
Definition write_page_of (s : rstate) : Z := 1 - byte_to_Z (page (shm s)).

(** The data model's invariant on the [page] field. *)
Definition page_ok (s : rstate) : Prop := page (shm s) = x00 \/ page (shm s) = x01.

(** The state after the filtering step: only [stdout] may have grown. *)
Definition after_filter (num_invalid : nat) (s : rstate) : rstate :=
  if (10 <? num_invalid)%nat then snd (print (LogFiltered num_invalid) s) else s.

(** The state after the first three statements of the [try] block, when
    [voxel_views[write_page]] is the view of page [v]. *)
Definition after_clear (v : Z) (s : rstate) : rstate :=
  emit (EvFill v)
    (with_shm (fun b => set_buffers b (clear_page v (buffers b)))
       (emit (EvReadPage (page (shm s))) s)).

(** ** The hand-off between the handlers and the processing thread *)

(** A call on a Python queue either returns or blocks its caller. *)
Inductive completion (A : Type) :=
| Returns (a : A)
| Blocks.
Arguments Returns {A} a.
Arguments Blocks {A}.

(** [collections.deque.append] on a deque with [maxlen]: the item is added
    on the right and, when the deque is then longer than [maxlen], one item
    is dropped on the left. *)
Definition deque_append {A} (maxlen : nat) (q : list A) (x : A) : list A :=
  let q' := q ++ [x] in
  if (maxlen <? length q')%nat then tail q' else q'.

(** [frame_queue = deque(maxlen=1)] *)
Definition frame_queue_maxlen : nat := 1.

(** [with queue_lock: frame_queue.append(decompressed)] *)
Definition offer (q : list (list byte)) (decompressed : list byte) : completion (list (list byte)) :=
  Returns (deque_append frame_queue_maxlen q decompressed).

(** [with queue_lock: if frame_queue: data = frame_queue.popleft()];
    [None] is the [data is None] of the source. *)
Definition take_frame (q : list (list byte)) : option (list byte) * list (list byte) :=
  match q with
  | [] => (None, [])
  | data :: q' => (Some data, q')
  end.

(** Several offers in a row, with no take in between. *)
Fixpoint offer_all (q : list (list byte)) (ds : list (list byte)) : completion (list (list byte)) :=
  match ds with
  | [] => Returns q
  | d :: ds' =>
      match offer q d with
      | Returns q' => offer_all q' ds'
      | Blocks => Blocks
      end
  end.

(** One iteration of the [while True] of [process_data]: poll the queue,
    and process the payload if there is one. *)
Definition rasterizer_iteration (q : list (list byte)) (s : rstate)
  : list (list byte) * option frame_outcome * rstate :=
  match take_frame q with
  | (None, q') => (q', None, s)
  | (Some data, q') =>
      match process_frame data s with
      | (Ok o, s') => (q', Some o, s')
      | (Raise e, s') => (q', Some (Failed e), s')
      end
  end.

(** ** The connection handler *)

(** What [gzip.decompress] does with its argument. *)
Inductive gz_result :=
| GzOk (data : list byte)
| GzBadGzipFile            (* [gzip.BadGzipFile] *)
| GzError.                 (* any other exception: [EOFError] on a truncated stream, [zlib.error] *)

(** Why a handler left its loop. *)
Inductive close_reason :=
| InvalidSignature             (* "Error: Invalid header signature." *)
| PacketTooLarge (n : Z)       (* "Error: Packet too large" *)
| IncompleteRead               (* [asyncio.IncompleteReadError] *)
| OtherException.              (* [except Exception] *)

(** A connection is at the top of the handler's loop, with the bytes its
    peer sends from now on until it closes its end, or it is closed. *)
Inductive conn_state :=
| Open (pending : list byte)
| ConnClosed (why : close_reason).

(** [await reader.readexactly(n)]: the next [n] bytes and what follows, or
    [IncompleteReadError] ([None]) when the stream ends before. *)
Definition readexactly (n : Z) (input : list byte) : option (list byte * list byte) :=
  if n <=? Z.of_nat (length input)
  then Some (take (Z.to_nat n) input, drop (Z.to_nat n) input)
  else None.

Fixpoint bytes_eqb (a b : list byte) : bool :=
  match a, b with
  | [], [] => true
  | x :: a', y :: b' => Byte.eqb x y && bytes_eqb a' b'
  | _, _ => false
  end.

Definition signature : list byte := [xff; xff; xff; xff].

(** [struct.unpack('!I', b)[0]]; [struct.error] ([None]) unless [b] has four bytes. *)
Definition unpack_u32_be (b : list byte) : option Z :=
  match b with
  | [b0; b1; b2; b3] =>
      Some (((byte_to_Z b0 * 256 + byte_to_Z b1) * 256 + byte_to_Z b2) * 256 + byte_to_Z b3)
  | _ => None
  end.

Definition max_packet_length : Z := 10000000.

Definition from_completion {A} (c : completion A) (dflt : A) : A :=
  match c with
  | Returns a => a
  | Blocks => dflt
  end.

Lemma byte_to_Z_nonneg (b : byte) : 0 <= byte_to_Z b.
Proof. unfold byte_to_Z. lia. Qed.

(** A value together with the equation that names it, for the loop below. *)
Definition with_equation {A : Type} (x : A) : {y : A | x = y} := exist _ x eq_refl.

Section Handler.

(** [gzip.decompress], of the Python library. *)
Variable gzip_decompress : list byte -> gz_result.

(** One iteration of the [while True] of [handle_client], on the bytes to
    come and the shared queue. *)
Definition handle_iteration (input : list byte) (q : list (list byte))
  : conn_state * list (list byte) :=
  match readexactly 8 input with
  | None => (ConnClosed IncompleteRead, q)
  | Some (header, input1) =>
      if negb (bytes_eqb (take 4 header) signature)
      then (ConnClosed InvalidSignature, q)
      else
        match unpack_u32_be (drop 4 header) with
        | None => (ConnClosed OtherException, q)
        | Some packet_length =>
            if max_packet_length <? packet_length
            then (ConnClosed (PacketTooLarge packet_length), q)
            else
              match readexactly packet_length input1 with
              | None => (ConnClosed IncompleteRead, q)
              | Some (compressed_data, input2) =>
                  match gzip_decompress compressed_data with
                  | GzOk decompressed =>
                      (Open input2, from_completion (offer q decompressed) q)
                  | GzBadGzipFile => (Open input2, q)
                  | GzError => (Open input2, q)
                  end
              end
        end
  end.

Lemma readexactly_length (n : Z) (input a b : list byte) :
  0 <= n -> readexactly n input = Some (a, b) ->
  length a = Z.to_nat n /\ (length b + Z.to_nat n = length input)%nat.
Proof.
  unfold readexactly. intros Hn H.
  destruct (n <=? Z.of_nat (length input)) eqn:E; [|discriminate].
  apply Z.leb_le in E. inversion H; subst.
  rewrite length_take, length_drop. lia.
Qed.

(** An iteration that leaves the connection open has consumed a header. *)
Lemma handle_iteration_consumes (input rest : list byte) (q q' : list (list byte)) :
  handle_iteration input q = (Open rest, q') -> (length rest < length input)%nat.
Proof.
  unfold handle_iteration. intros H.
  destruct (readexactly 8 input) as [[header input1]|] eqn:E1; [|discriminate].
  destruct (negb _); [discriminate|].
  destruct (unpack_u32_be _) as [n|] eqn:En; [|discriminate].
  destruct (max_packet_length <? n); [discriminate|].
  destruct (readexactly n input1) as [[c input2]|] eqn:E2; [|discriminate].
  apply readexactly_length in E1 as [_ E1]; [|lia].
  assert (Hn : 0 <= n).
  { unfold unpack_u32_be in En.
    destruct (drop 4 header) as [|b0 [|b1 [|b2 [|b3 [|]]]]]; try discriminate.
    inversion En.
    pose proof (byte_to_Z_nonneg b0). pose proof (byte_to_Z_nonneg b1).
    pose proof (byte_to_Z_nonneg b2). pose proof (byte_to_Z_nonneg b3). lia. }
  apply readexactly_length in E2 as [_ E2]; [|exact Hn].
  destruct (gzip_decompress c); inversion H; subst; lia.
Qed.

(** [handle_client]: the loop, until the connection is closed. The peer
    sends [input] and closes its end, so the loop ends, at the latest with
    [IncompleteReadError] in [readexactly]. *)
Equations? handle_client (input : list byte) (q : list (list byte))
  : close_reason * list (list byte) by wf (length input) lt :=
handle_client input q with with_equation (handle_iteration input q) := {
  | exist _ (Open rest, q') E => handle_client rest q'
  | exist _ (ConnClosed why, q') E => (why, q') }.
Proof.
  eapply handle_iteration_consumes. exact E.
Qed.

(** ** The server: several connections, one queue *)

(** The connections of the server, by number, and the queue they share. *)
Record server := mk_server {
  conns : gmap nat conn_state;
  frame_queue : list (list byte)
}.

(** The handler task of connection [i] runs one iteration of its loop;
    nothing happens for a connection that is closed or does not exist. *)
Definition serve (i : nat) (srv : server) : server :=
  match conns srv !! i with
  | Some (Open input) =>
      let '(c, q) := handle_iteration input (frame_queue srv) in
      mk_server (<[i := c]> (conns srv)) q
  | _ => srv
  end.

End Handler.

(** A small decoder with the three outcomes of [gzip.decompress], on which
    the handler can be run. It is not gzip: a stream is the two magic bytes
    [1f 8b], one length byte, and that many bytes stored as they are. As
    [gzip.decompress] does, it returns the empty payload on the empty input. *)
Definition stored_decompress (b : list byte) : gz_result :=
  match b with
  | [] => GzOk []
  | x1f :: x8b :: n :: body =>
      if (length body =? N.to_nat (Byte.to_N n))%nat then GzOk body else GzError
  | _ => GzBadGzipFile
  end.

(** The first [len(data) // 4] rows of a payload: those of [reshape4] when
    the length is a multiple of four. *)
Fixpoint rows_of (data : list byte) : list point :=
  match data with
  | x :: y :: z :: c :: rest => mk_point x y z c :: rows_of rest
  | _ => []
  end.

(** ** Start-up *)

(** What is at [/dev/shm/vortex_double_buffer] when the thread starts. *)
Inductive shm_file :=
| ShmMissing
| ShmFile (size : Z).

(** [os.open] then [mmap.mmap(shm_fd, ctypes.sizeof(voxel_double_buffer_t), ...)]:
    [FileNotFoundError] when the file is missing, [ValueError] ("mmap length
    is greater than file size") when it is shorter than the structure. *)
Definition open_shm (f : shm_file) : py_exception + unit :=
  match f with
  | ShmMissing => inl FileNotFoundError
  | ShmFile size =>
      if size <? sizeof_voxel_double_buffer_t then inl ValueError else inr tt
  end.

(** The processing thread either runs its loop or has returned from
    [process_data] after printing "CRITICAL ERROR". *)
Inductive thread_state :=
| ThreadLooping
| ThreadReturned (e : py_exception).

Definition process_data_start (f : shm_file) : thread_state :=
  match open_shm f with
  | inr _ => ThreadLooping
  | inl e => ThreadReturned e
  end.

(** What the process meets when it starts. *)
Record environment := mk_env {
  env_shm : shm_file;
  env_port_free : bool;        (* [asyncio.start_server] can bind the port *)
  env_interrupt : bool         (* a [KeyboardInterrupt] arrives *)
}.

(** The process either keeps serving connections, with its processing
    thread in the given state, or has exited. *)
Inductive process_state :=
| Serving (rasterizer : thread_state)
| Exited (code : Z).

(** [main()]: start the thread, start the server, serve forever; the value
    is the state it serves in, or the exception [start_server] raises. *)
Definition main (env : environment) : py_exception + thread_state :=
  let proc_thread := process_data_start (env_shm env) in
  if env_port_free env then inr proc_thread else inl OSError.

(** The [if __name__ == "__main__"] block: both handlers print and fall
    off the end of the script, so the interpreter exits with status 0. *)
Definition run (env : environment) : process_state :=
  match main env with
  | inl _ => Exited 0                       (* [except Exception]: "Fatal error" *)
  | inr t =>
      if env_interrupt env
      then Exited 0                         (* [except KeyboardInterrupt]: "Stopping server..." *)
      else Serving t
  end.

(** ** The wire format, as the producers build it *)

(** [struct.pack('>I', n)] for [0 <= n < 2^32]. *)
Definition pack_u32_be (n : Z) : list byte :=
  [c_uint8 (n / 16777216); c_uint8 (n / 65536); c_uint8 (n / 256); c_uint8 n].

(** [header + length + compressed] of [generate_packet]. *)
Definition wire_frame (compressed : list byte) : list byte :=
  signature ++ pack_u32_be (Z.of_nat (length compressed)) ++ compressed.

(** The three protocol errors, as shapes of what the peer sends from the
    top of the loop on: eight bytes that do not start with the signature;
    a header whose length field exceeds the limit (whatever follows); a
    stream that ends inside the header or inside the announced payload. *)
Inductive protocol_error : list byte -> Prop :=
| WrongSignature (header rest : list byte) :
    length header = 8%nat -> take 4 header <> signature ->
    protocol_error (header ++ rest)
| OverSize (L : Z) (rest : list byte) :
    max_packet_length < L < 4294967296 ->
    protocol_error (signature ++ pack_u32_be L ++ rest)
| ShortHeader (partial : list byte) :
    (0 < length partial < 8)%nat ->
    protocol_error partial
| ShortPayload (L : Z) (partial : list byte) :
    0 <= L <= max_packet_length -> Z.of_nat (length partial) < L ->
    protocol_error (signature ++ pack_u32_be L ++ partial).

(** ** Reading traces *)

Definition is_page_write (e : event) : bool :=
  match e with
  | EvWritePage _ => true
  | _ => false
  end.

(** The page a voxel write goes to. *)
Definition written_page (e : event) : option Z :=
  match e with
  | EvFill pg => Some pg
  | EvStore pg _ _ _ _ => Some pg
  | _ => None
  end.

(** Every voxel write of the trace goes to the complement of the value the
    latest read of [page] returned; [last_read] is that value at the start
    of the trace. *)
Fixpoint writes_complement (last_read : option byte) (tr : list event) : bool :=
  match tr with
  | [] => true
  | EvReadPage p :: tr' => writes_complement (Some p) tr'
  | e :: tr' =>
      match written_page e, last_read with
      | None, _ => writes_complement last_read tr'
      | Some pg, Some p => (pg =? 1 - byte_to_Z p) && writes_complement last_read tr'
      | Some _, None => false
      end
  end.

(** No voxel write of the trace goes to the page named by the latest read
    of [page]: between two successive reads, the page the first one named
    is left alone. *)
Fixpoint owner_untouched (last_read : option byte) (tr : list event) : bool :=
  match tr with
  | [] => true
  | EvReadPage p :: tr' => owner_untouched (Some p) tr'
  | e :: tr' =>
      match written_page e, last_read with
      | None, _ => owner_untouched last_read tr'
      | Some pg, Some p => negb (pg =? byte_to_Z p) && owner_untouched last_read tr'
      | Some _, None => false
      end
  end.

(** An event of the body of an iteration: not a read of [page], and if it
    writes voxels, then those of page [v]. *)
Definition body_event (v : Z) (e : event) : Prop :=
  match e with
  | EvReadPage _ => False
  | _ => written_page e = None \/ written_page e = Some v
  end.

(** The element stores of a trace, in order. *)
Fixpoint stores_of (tr : list event) : list event :=
  match tr with
  | [] => []
  | EvStore pg y x z c :: tr' => EvStore pg y x z c :: stores_of tr'
  | _ :: tr' => stores_of tr'
  end.

(** The region is missing, or smaller than the structure. *)
Definition region_unusable (f : shm_file) : Prop :=
  f = ShmMissing \/ exists size, f = ShmFile size /\ size < sizeof_voxel_double_buffer_t.

(** ** The older receiver, where it differs *)

Module Legacy.

(** [data_queue = queue.Queue(maxsize=2)] *)
Definition data_queue_maxsize : nat := 2.

(** [data_queue.full()] *)
Definition full (q : list (list byte)) : bool := (data_queue_maxsize <=? length q)%nat.

(** [data_queue.put(item)]: blocks while the queue is full. *)
Definition put (q : list (list byte)) (item : list byte) : completion (list (list byte)) :=
  if full q then Blocks else Returns (q ++ [item]).

(** [if not data_queue.full(): data_queue.put(decompressed)] *)
Definition offer (q : list (list byte)) (decompressed : list byte) : completion (list (list byte)) :=
  if negb (full q) then put q decompressed else Returns q.

(** [data_queue.get()]: blocks while the queue is empty. *)
Definition get (q : list (list byte)) : completion (list byte * list (list byte)) :=
  match q with
  | [] => Blocks
  | data :: q' => Returns (data, q')
  end.

Fixpoint offer_all (q : list (list byte)) (ds : list (list byte)) : completion (list (list byte)) :=
  match ds with
  | [] => Returns q
  | d :: ds' =>
      match offer q d with
      | Returns q' => offer_all q' ds'
      | Blocks => Blocks
      end
  end.

(** [ctypes.memset(ctypes.byref(buffer, page * voxels_count), 0, voxels_count)]:
    the [voxels_count] bytes from offset [page * voxels_count] on. For
    [page] in 0..1 these are the bytes of that page of [buffers], and this
    is the case the definition is for. For any other value the call writes
    outside the mapping and the operating system kills the process; the
    definition does not follow that, and everything proved of the older
    thread below assumes [page] in 0..1. *)
Definition memset_page (page : Z) : M unit :=
  fun s => (Ok tt,
            emit (EvFill page)
              (with_shm (fun b => set_buffers b (clear_page page (buffers b))) s)).

(** The [try] block of the older [process_data]: no test on the number of
    points, so an empty payload goes through to the flip. *)
Definition process_frame_body (data : list byte) : M frame_outcome :=
  (let* current := read_page in
   let page := 1 - current in
   exec memset_page page in
   let* point_data :=
     match reshape4 data with
     | Some rows => ret rows
     | None => raise ValueError
     end in
   let* kept :=
     (if negb (forallb valid_point point_data)
      then (exec print (LogFiltered (count_invalid point_data)) in
            ret (filter (fun p => valid_point p = true) point_data))
      else ret point_data) in
   let* voxels := view_at page in
   exec scatter voxels kept in
   exec write_page_field page in
   ret (Flipped (count_invalid point_data) (length kept)))%py.

Definition process_frame (data : list byte) : M frame_outcome :=
  try_except (process_frame_body data)
    (fun e => (exec print (LogFrameError e) in ret (Failed e))%py).

Section Handler.

Variable gzip_decompress : list byte -> gz_result.

(** One iteration of the older [handle_client]: no limit on the length
    field, and only [gzip.BadGzipFile] is caught around the decompression;
    any other exception reaches the outer [except Exception]. *)
Definition handle_iteration (input : list byte) (q : list (list byte))
  : conn_state * list (list byte) :=
  match readexactly 8 input with
  | None => (ConnClosed IncompleteRead, q)
  | Some (header, input1) =>
      if negb (bytes_eqb (take 4 header) signature)
      then (ConnClosed InvalidSignature, q)
      else
        match unpack_u32_be (drop 4 header) with
        | None => (ConnClosed OtherException, q)
        | Some packet_length =>
            match readexactly packet_length input1 with
            | None => (ConnClosed IncompleteRead, q)
            | Some (data, input2) =>
                match gzip_decompress data with
                | GzOk decompressed =>
                    (Open input2, from_completion (offer q decompressed) q)
                | GzBadGzipFile => (Open input2, q)
                | GzError => (ConnClosed OtherException, q)
                end
            end
        end
  end.

End Handler.

End Legacy.

(** ** Reading outcomes and payloads *)

Definition is_flipped (o : frame_outcome) : bool :=
  match o with
  | Flipped _ _ => true
  | _ => false
  end.

(** The number of iterations that reached the flip. *)
Definition flips (os : list frame_outcome) : nat :=
  length (filter (fun o => is_flipped o = true) os).

(** At least one row and no partial row: [len(data) // 4 != 0] and the
    [reshape] succeeds. *)
Definition whole_payload (data : list byte) : bool :=
  (4 <=? length data)%nat && (length data mod 4 =? 0)%nat.

(** Two rows address the same voxel. *)
Definition same_voxel (p q : point) : bool :=
  Byte.eqb (pt_x p) (pt_x q) && Byte.eqb (pt_y p) (pt_y q) && Byte.eqb (pt_z p) (pt_z q).

(** The index of a row's voxel within its page. *)
Definition point_offset (p : point) : Z :=
  (byte_to_Z (pt_y p) * 128 + byte_to_Z (pt_x p)) * 64 + byte_to_Z (pt_z p).

(** The fields of the region that belong to the driver. *)
Definition control_fields (s : rstate) : byte * Z * Z * Z :=
  (bpc (shm s), flags (shm s), rpm (shm s), uspf (shm s)).

(** A computation that leaves the driver's fields as they are, whatever it
    returns. *)
Definition keeps_control {A} (m : M A) : Prop :=
  forall s, control_fields (snd (m s)) = control_fields s.

Definition is_flipped_result (r : result frame_outcome) : bool :=
  match r with
  | Ok o => is_flipped o
  | Raise _ => false
  end.

(** ** Streams of frames and schedules *)

(** The frames of the given compressed payloads, one after the other, as a
    producer sends them with [sendall]. *)
Definition stream_of (cs : list (list byte)) : list byte :=
  concat (map wire_frame cs).

Section Streams.

Variable gzip_decompress : list byte -> gz_result.

(** The queue after the handler has gone through the frames of [cs]. *)
Definition queue_after (cs : list (list byte)) (q : list (list byte)) : list (list byte) :=
  fold_left (fun q c => match gzip_decompress c with
                        | GzOk d => deque_append frame_queue_maxlen q d
                        | _ => q
                        end) cs q.

(** The payloads of the frames of [cs] that decompress. *)
Definition decompressed_of (cs : list (list byte)) : list (list byte) :=
  omap (fun c => match gzip_decompress c with
                 | GzOk d => Some d
                 | _ => None
                 end) cs.

(** The handler tasks run one iteration each, in the order of [schedule]. *)
Definition run_schedule (schedule : list nat) (srv : server) : server :=
  fold_left (fun srv i => serve gzip_decompress i srv) schedule srv.

End Streams.

(** ** The producer: [vortexstream_update.py] *)

Module Producer.

Definition VOX_X : Z := 128.
Definition VOX_Y : Z := 128.
Definition VOX_Z : Z := 64.
Definition MAX_POINTS_PER_FRAME : Z := 100000.

(** A voxel position [(x, y, z)], as the tuples of the source. *)
Definition voxel : Type := Z * Z * Z.

(** [is_in_bounds(vox_x, vox_y, vox_z)] *)
Definition is_in_bounds (vox_x vox_y vox_z : Z) : bool :=
  ((0 <=? vox_x) && (vox_x <? VOX_X)) &&
  ((0 <=? vox_y) && (vox_y <? VOX_Y)) &&
  ((0 <=? vox_z) && (vox_z <? VOX_Z)).

Definition voxel_in_bounds (p : voxel) : bool :=
  let '(x, y, z) := p in is_in_bounds x y z.

(** One of the three [while] loops of [bresenham_3d], which differ in the
    names of the variables only: [a] is the coordinate of the driving
    axis, stepped by [sa] until it is [a1]; [b] and [c] are the two other
    coordinates, in the order in which the loop tests their error terms;
    [mk] puts the three back in the order [(x, y, z)]. [None] when [fuel]
    iterations do not reach [a1]. *)
Fixpoint line_loop (fuel : nat) (mk : Z -> Z -> Z -> voxel)
    (a b c a1 sa sb sc da db dc err_b err_c : Z) : option (list voxel) :=
  match fuel with
  | O => None
  | S fuel' =>
      if a =? a1 then Some []
      else
        let b' := if 0 <? err_b then b + sb else b in
        let err_b' := if 0 <? err_b then err_b - 2 * da else err_b in
        let c' := if 0 <? err_c then c + sc else c in
        let err_c' := if 0 <? err_c then err_c - 2 * da else err_c in
        match line_loop fuel' mk (a + sa) b' c' a1 sa sb sc da db dc
                (err_b' + 2 * db) (err_c' + 2 * dc) with
        | Some points => Some (mk a b c :: points)
        | None => None
        end
  end.

(** [bresenham_3d(x0, y0, z0, x1, y1, z1)]. Each loop gets one iteration
    more than the distance along its driving axis. *)
Definition bresenham_3d (x0 y0 z0 x1 y1 z1 : Z) : option (list voxel) :=
  let dx := Z.abs (x1 - x0) in
  let dy := Z.abs (y1 - y0) in
  let dz := Z.abs (z1 - z0) in
  let sx := if x0 <? x1 then 1 else -1 in
  let sy := if y0 <? y1 then 1 else -1 in
  let sz := if z0 <? z1 then 1 else -1 in
  let points :=
    if (dy <=? dx) && (dz <=? dx)
    then line_loop (S (Z.to_nat dx)) (fun a b c => (a, b, c))
           x0 y0 z0 x1 sx sy sz dx dy dz (2 * dy - dx) (2 * dz - dx)
    else if (dx <=? dy) && (dz <=? dy)
    then line_loop (S (Z.to_nat dy)) (fun a b c => (b, a, c))
           y0 x0 z0 y1 sy sx sz dy dx dz (2 * dx - dy) (2 * dz - dy)
    else line_loop (S (Z.to_nat dz)) (fun a b c => (b, c, a))
           z0 x0 y0 z1 sz sx sy dz dx dy (2 * dx - dz) (2 * dy - dz) in
  match points with
  | Some points => Some (points ++ [(x1, y1, z1)])
  | None => None
  end.

(** One value of [struct.pack('BBBB', ...)]: [struct.error] ([None])
    outside 0..255. *)
Definition pack_B (v : Z) : option byte :=
  if (0 <=? v) && (v <=? 255) then Byte.of_N (Z.to_N v) else None.

(** [struct.pack('BBBB', *p)] *)
Definition pack_BBBB (p : Z * Z * Z * Z) : option (list byte) :=
  let '(x, y, z, c) := p in
  match pack_B x, pack_B y, pack_B z, pack_B c with
  | Some bx, Some by_, Some bz, Some bc => Some [bx; by_; bz; bc]
  | _, _, _, _ => None
  end.

(** [for p in points: raw_data.extend(struct.pack('BBBB', *p))] *)
Fixpoint pack_points (points : list (Z * Z * Z * Z)) : option (list byte) :=
  match points with
  | [] => Some []
  | p :: rest =>
      match pack_BBBB p, pack_points rest with
      | Some b, Some raw => Some (b ++ raw)
      | _, _ => None
      end
  end.

Section Packet.

(** [gzip.compress], of the Python library. *)
Variable gzip_compress : list byte -> list byte.

(** [generate_packet(points)]; [None] when [struct.pack] raises. *)
Definition generate_packet (points : list (Z * Z * Z * Z)) : option (list byte) :=
  let points :=
    if MAX_POINTS_PER_FRAME <? Z.of_nat (length points)
    then take (Z.to_nat MAX_POINTS_PER_FRAME) points
    else points in
  match pack_points points with
  | None => None
  | Some raw_data =>
      let compressed := gzip_compress raw_data in
      if Z.of_nat (length compressed) <? 4294967296
      then Some (signature ++ pack_u32_be (Z.of_nat (length compressed)) ++ compressed)
      else None
  end.

End Packet.

(** The point of a row, as the producer's tuple. *)
Definition tuple_of (p : point) : Z * Z * Z * Z :=
  (byte_to_Z (pt_x p), byte_to_Z (pt_y p), byte_to_Z (pt_z p), byte_to_Z (pt_pix p)).

(** Walking from one position to another along the driving axis [a]:
    every step moves [a] by [sa] and each of [b], [c] by nothing or by its
    own step. The list holds the positions left behind, in order. *)
Inductive Walk (sa sb sc : Z) : Z * Z * Z -> list (Z * Z * Z) -> Z * Z * Z -> Prop :=
| Walk_done p : Walk sa sb sc p [] p
| Walk_step a b c b' c' l q :
    (b' = b \/ b' = b + sb) -> (c' = c \/ c' = c + sc) ->
    Walk sa sb sc (a + sa, b', c') l q ->
    Walk sa sb sc (a, b, c) ((a, b, c) :: l) q.

(** Neighbours in the grid: no coordinate differs by more than one, and
    the positions differ. *)
Definition adjacent (p q : voxel) : Prop :=
  let '(x, y, z) := p in
  let '(x', y', z') := q in
  Z.abs (x' - x) <= 1 /\ Z.abs (y' - y) <= 1 /\ Z.abs (z' - z) <= 1 /\ p <> q.

(** Each position of the list is a neighbour of the next. *)
Fixpoint chain (pts : list voxel) : Prop :=
  match pts with
  | p :: (q :: _) as rest => adjacent p q /\ chain rest
  | _ => True
  end.

(** A position in the box spanned by two corners. *)
Definition in_box (p0 p1 p : voxel) : Prop :=
  let '(x0, y0, z0) := p0 in
  let '(x1, y1, z1) := p1 in
  let '(x, y, z) := p in
  Z.min x0 x1 <= x <= Z.max x0 x1 /\
  Z.min y0 y1 <= y <= Z.max y0 y1 /\
  Z.min z0 z1 <= z <= Z.max z0 z1.

(** A small encoder for [stored_decompress]: the magic, the length, the
    bytes as they are. It is not gzip. *)
Definition stored_compress (raw : list byte) : list byte :=
  [x1f; x8b; c_uint8 (Z.of_nat (length raw))] ++ raw.

End Producer.

(** The number of "Processed n frames" lines among what was printed. *)
Definition is_report (l : log_line) : bool :=
  match l with
  | LogProcessed _ _ => true
  | _ => false
  end.

Definition reports (out : list log_line) : nat :=
  length (filter (fun l => is_report l = true) out).

(** ** Auxiliary definitions for the producer and the older receiver *)

(** A function of three coordinates, on a triple. *)
Definition on_triple (mk : Z -> Z -> Z -> Producer.voxel) (p : Z * Z * Z) : Producer.voxel :=
  let '(a, b, c) := p in mk a b c.

(** The points a packet carries: the first 100,000 of the list. *)
Definition sent_points (points : list (Z * Z * Z * Z)) : list (Z * Z * Z * Z) :=
  take (Z.to_nat Producer.MAX_POINTS_PER_FRAME) points.

(** A point the producer may send: a position that [is_in_bounds] accepts
    and a colour of one byte. *)
Definition sendable (p : Z * Z * Z * Z) : Prop :=
  let '(x, y, z, c) := p in
  Producer.is_in_bounds x y z = true /\ 0 <= c <= 255.

(** The older filtering step: the warning is printed whenever a row is
    out of bounds. *)
Definition legacy_after_filter (pts : list point) (s : rstate) : rstate :=
  if forallb valid_point pts then s else snd (print (LogFiltered (count_invalid pts)) s).

(** * Properties *)

(** ** Bytes, rows and indices: basic facts *)

Lemma c_uint8_byte_to_Z (v : Z) : byte_to_Z (c_uint8 v) = v mod 256.
Proof.
  unfold c_uint8, byte_to_Z.
  assert (Hr : 0 <= v mod 256 < 256) by (apply Z.mod_pos_bound; lia).
  destruct (Byte.of_N (Z.to_N (v mod 256))) as [b|] eqn:E.
  - apply Byte.to_of_N in E. simpl. rewrite E. lia.
  - apply Byte.of_N_None_iff in E. lia.
Qed.

Lemma reshape4_length (data : list byte) :
  forall pts, reshape4 data = Some pts -> length data = (4 * length pts)%nat.
Proof.
  induction data as [data IH] using (induction_ltof1 _ (@length byte)).
  unfold ltof in IH. intros pts H.
  destruct data as [|x [|y [|z [|c rest]]]]; simpl in H; try discriminate.
  - inversion H. reflexivity.
  - destruct (reshape4 rest) as [rows|] eqn:E; [|discriminate].
    inversion H; subst.
    assert (Hlt : (length rest < length (x :: y :: z :: c :: rest))%nat) by (simpl; lia).
    pose proof (IH rest Hlt rows E) as Hrest. simpl. lia.
Qed.

(** [reshape(-1, 4)] succeeds exactly on lengths that are multiples of four. *)
Lemma reshape4_multiple (data : list byte) :
  (length data mod 4 = 0)%nat -> exists pts, reshape4 data = Some pts.
Proof.
  induction data as [data IH] using (induction_ltof1 _ (@length byte)).
  unfold ltof in IH. intros H.
  destruct data as [|x [|y [|z [|c rest]]]]; try (simpl in H; discriminate).
  - exists []. reflexivity.
  - destruct (IH rest) as [rows Hr].
    + simpl. lia.
    + change (length (x :: y :: z :: c :: rest)) with (4 + length rest)%nat in H.
      assert (Hm : ((4 + length rest) mod 4 = length rest mod 4)%nat).
      { replace (4 + length rest)%nat with (length rest + 1 * 4)%nat by lia.
        apply Nat.Div0.mod_add. }
      congruence.
    + exists (mk_point x y z c :: rows). simpl. rewrite Hr. reflexivity.
Qed.

Lemma reshape4_not_multiple (data : list byte) :
  (length data mod 4 <> 0)%nat -> reshape4 data = None.
Proof.
  intros H. destruct (reshape4 data) as [pts|] eqn:E; [|reflexivity].
  apply reshape4_length in E. exfalso. apply H. rewrite E.
  rewrite Nat.mul_comm. apply Nat.Div0.mod_mul.
Qed.

Lemma count_invalid_cons (p : point) (pts : list point) :
  count_invalid (p :: pts) =
  ((if valid_point p then 0 else 1) + count_invalid pts)%nat.
Proof.
  unfold count_invalid. rewrite filter_cons.
  destruct (decide (valid_point p = false)) as [H|H].
  - rewrite H. reflexivity.
  - destruct (valid_point p); [reflexivity | congruence].
Qed.

Lemma filter_valid_cons (p : point) (pts : list point) :
  filter (fun q => valid_point q = true) (p :: pts) =
  if valid_point p then p :: filter (fun q => valid_point q = true) pts
  else filter (fun q => valid_point q = true) pts.
Proof.
  rewrite filter_cons.
  destruct (decide (valid_point p = true)) as [H|H].
  - rewrite H. reflexivity.
  - destruct (valid_point p); [congruence | reflexivity].
Qed.

(** Every row is either kept or counted. *)
Lemma kept_plus_invalid (pts : list point) :
  (length (filter (fun p => valid_point p = true) pts) + count_invalid pts = length pts)%nat.
Proof.
  induction pts as [|p pts IH]; [reflexivity|].
  rewrite filter_valid_cons, count_invalid_cons.
  destruct (valid_point p); simpl; lia.
Qed.

(** When nothing is invalid, the unfiltered rows are the filtered ones. *)
Lemma no_invalid_filter (pts : list point) :
  count_invalid pts = 0%nat -> filter (fun p => valid_point p = true) pts = pts.
Proof.
  induction pts as [|p pts IH]; [reflexivity|].
  rewrite filter_valid_cons, count_invalid_cons.
  destruct (valid_point p); simpl; [|discriminate].
  intros H. rewrite IH; auto.
Qed.

Lemma filter_valid_Forall (pts : list point) :
  Forall (fun p => valid_point p = true) (filter (fun p => valid_point p = true) pts).
Proof.
  induction pts as [|p pts IH]; [constructor|].
  rewrite filter_valid_cons. destruct (valid_point p) eqn:E; auto.
Qed.

Lemma valid_point_bounds (p : point) :
  valid_point p = true <->
  byte_to_Z (pt_x p) < 128 /\ byte_to_Z (pt_y p) < 128 /\ byte_to_Z (pt_z p) < 64.
Proof.
  unfold valid_point, voxels_x, voxels_y, voxels_z.
  rewrite !andb_true_iff, !Z.ltb_lt. tauto.
Qed.

(** ** What the primitives do *)

Lemma scatter_spec (pg : Z) (pts : list point) (s : rstate) :
  scatter pg pts s =
  (Ok tt,
   mk_rstate (set_buffers (shm s) (paint pg pts (buffers (shm s))))
     (frame_count s) (last_print s) (stdout s) (trace s ++ map (store_event pg) pts)).
Proof.
  revert s. induction pts as [|p pts IH]; intros [[f pgb b fl r u] fc lp out tr].
  - simpl. unfold ret, set_buffers. simpl. rewrite app_nil_r. reflexivity.
  - simpl. unfold bind, store_voxel. rewrite IH. simpl.
    unfold set_buffers. simpl. rewrite <- app_assoc. reflexivity.
Qed.

Lemma write_page_cases (s : rstate) :
  page_ok s ->
  (page (shm s) = x00 /\ write_page_of s = 1) \/ (page (shm s) = x01 /\ write_page_of s = 0).
Proof.
  unfold page_ok, write_page_of. intros [H|H]; rewrite H; [left | right]; split; reflexivity.
Qed.

(** With [page] in 0..1 the view taken from [voxel_views] is the one of the
    other page. *)
Lemma view_page_ok (s : rstate) :
  page_ok s -> py_list_index voxel_views (write_page_of s) = Some (write_page_of s).
Proof.
  intros H. destruct (write_page_cases s H) as [[_ E]|[_ E]]; rewrite E; reflexivity.
Qed.

Lemma c_uint8_write_page (s : rstate) :
  page_ok s -> byte_to_Z (c_uint8 (write_page_of s)) = write_page_of s.
Proof.
  intros H. destruct (write_page_cases s H) as [[_ E]|[_ E]]; rewrite E; reflexivity.
Qed.

(** The guard [if len(x) > 0] changes nothing: [scatter] of no row is a no-op. *)
Lemma scatter_guard (pg : Z) (kept : list point) (s : rstate) :
  (if (0 <? length kept)%nat then scatter pg kept else ret tt) s = scatter pg kept s.
Proof.
  destruct kept; reflexivity.
Qed.

Lemma filter_stage {A} (pts : list point) (k : list point -> M A) (s : rstate) :
  bind (if (0 <? count_invalid pts)%nat
        then bind (if (10 <? count_invalid pts)%nat
                   then print (LogFiltered (count_invalid pts)) else ret tt)
               (fun _ => ret (filter (fun p => valid_point p = true) pts))
        else ret pts) k s =
  k (filter (fun p => valid_point p = true) pts) (after_filter (count_invalid pts) s).
Proof.
  unfold after_filter.
  destruct (0 <? count_invalid pts)%nat eqn:E0.
  - destruct (10 <? count_invalid pts)%nat eqn:E1; reflexivity.
  - apply Nat.ltb_ge in E0.
    assert (E1 : (10 <? count_invalid pts)%nat = false) by (apply Nat.ltb_ge; lia).
    rewrite E1. unfold bind, ret. rewrite no_invalid_filter; [reflexivity | lia].
Qed.

Lemma after_filter_shm n s : shm (after_filter n s) = shm s.
Proof. unfold after_filter. destruct (10 <? n)%nat; reflexivity. Qed.

Lemma after_filter_trace n s : trace (after_filter n s) = trace s.
Proof. unfold after_filter. destruct (10 <? n)%nat; reflexivity. Qed.

Lemma count_frame_shm n s : shm (snd (count_frame n s)) = shm s.
Proof. unfold count_frame. destruct (100 <=? _); reflexivity. Qed.

Lemma count_frame_trace n s : trace (snd (count_frame n s)) = trace s.
Proof. unfold count_frame. destruct (100 <=? _); reflexivity. Qed.

Lemma count_frame_stdout n s l : In l (stdout s) -> In l (stdout (snd (count_frame n s))).
Proof.
  unfold count_frame. destruct (100 <=? _); simpl; [|auto].
  intros H. apply in_or_app. auto.
Qed.

(** More than ten invalid rows: the count is printed. *)
Lemma after_filter_stdout n s :
  (10 < n)%nat -> In (LogFiltered n) (stdout (after_filter n s)).
Proof.
  intros H. unfold after_filter. apply Nat.ltb_lt in H. rewrite H. simpl.
  apply in_or_app. right. left. reflexivity.
Qed.

Lemma count_frame_ok n s : fst (count_frame n s) = Ok tt.
Proof. unfold count_frame. destruct (100 <=? _); reflexivity. Qed.

Lemma view_at_Some (i v : Z) (s : rstate) :
  py_list_index voxel_views i = Some v -> view_at i s = (Ok v, s).
Proof. unfold view_at. intros ->. reflexivity. Qed.

Lemma view_at_None (i : Z) (s : rstate) :
  py_list_index voxel_views i = None -> view_at i s = (Raise IndexError, s).
Proof. unfold view_at. intros ->. reflexivity. Qed.

(** A payload with at least one whole row and no partial row: the view is
    cleared, the valid rows are stored in order, then [page] is written. *)
Lemma process_frame_flipped (data : list byte) (pts : list point) (v : Z) (s : rstate) :
  py_list_index voxel_views (write_page_of s) = Some v ->
  reshape4 data = Some pts -> pts <> [] ->
  let kept := filter (fun p => valid_point p = true) pts in
  exists s',
    process_frame data s = (Ok (Flipped (count_invalid pts) (length kept)), s') /\
    buffers (shm s') = paint v kept (clear_page v (buffers (shm s))) /\
    page (shm s') = c_uint8 (write_page_of s) /\
    trace s' = trace s ++ [EvReadPage (page (shm s)); EvFill v]
                       ++ map (store_event v) kept
                       ++ [EvWritePage (c_uint8 (write_page_of s))] /\
    ((10 < count_invalid pts)%nat -> In (LogFiltered (count_invalid pts)) (stdout s')).
Proof.
  intros Hv Hr Hne kept.
  assert (Hn : ((length data / 4 =? 0) = false)%nat).
  { apply Nat.eqb_neq. rewrite (reshape4_length _ _ Hr).
    rewrite Nat.mul_comm, Nat.div_mul by lia. destruct pts; [congruence | simpl; lia]. }
  unfold process_frame, try_except, process_frame_body.
  unfold bind at 1. unfold read_page at 1. fold (write_page_of s). cbv zeta.
  unfold bind at 1. rewrite (view_at_Some _ _ _ Hv).
  unfold bind at 1. unfold fill_zero at 1. fold (after_clear v s).
  rewrite Hn, Tauto.if_same, Hr.
  unfold bind at 1. unfold ret at 1.
  rewrite filter_stage. fold kept.
  unfold bind at 1. rewrite scatter_guard, scatter_spec.
  unfold bind at 1. unfold write_page_field at 1.
  unfold bind at 1.
  match goal with |- context [count_frame ?n ?st] =>
    pose proof (count_frame_ok n st) as Hc1;
    pose proof (count_frame_shm n st) as Hc2;
    pose proof (count_frame_trace n st) as Hc3;
    pose proof (count_frame_stdout n st) as Hc4;
    destruct (count_frame n st) as [r s1] end.
  simpl in Hc1, Hc2, Hc3, Hc4. subst r. unfold ret.
  exists s1. split; [reflexivity|].
  rewrite Hc2, Hc3. simpl. rewrite after_filter_shm, after_filter_trace. simpl.
  split; [reflexivity|]. split; [reflexivity|]. split.
  - rewrite <- !app_assoc. reflexivity.
  - intros Hmany. apply Hc4. apply after_filter_stdout. exact Hmany.
Qed.

(** Fewer than four bytes: [num_points == 0], the iteration ends at
    [continue], after the view was cleared and before [page] is written. *)
Lemma process_frame_skipped (data : list byte) (v : Z) (s : rstate) :
  py_list_index voxel_views (write_page_of s) = Some v ->
  (length data < 4)%nat ->
  process_frame data s = (Ok Skipped, after_clear v s).
Proof.
  intros Hv Hlen.
  assert (Hn : ((length data / 4 =? 0) = true)%nat).
  { apply Nat.eqb_eq. apply Nat.div_small. exact Hlen. }
  unfold process_frame, try_except, process_frame_body.
  unfold bind at 1. unfold read_page at 1. fold (write_page_of s). cbv zeta.
  unfold bind at 1. rewrite (view_at_Some _ _ _ Hv).
  unfold bind at 1. unfold fill_zero at 1. fold (after_clear v s).
  rewrite Hn. reflexivity.
Qed.

(** At least one whole row and a partial one: [reshape] raises, the handler
    of the [try] prints; the view was cleared and [page] is not written. *)
Lemma process_frame_partial (data : list byte) (v : Z) (s : rstate) :
  py_list_index voxel_views (write_page_of s) = Some v ->
  (4 <= length data)%nat -> (length data mod 4 <> 0)%nat ->
  process_frame data s =
  (Ok (Failed ValueError), snd (print (LogFrameError ValueError) (after_clear v s))).
Proof.
  intros Hv Hlen Hmod.
  assert (Hn : ((length data / 4 =? 0) = false)%nat).
  { apply Nat.eqb_neq. intros H0. apply Nat.div_small_iff in H0; lia. }
  unfold process_frame, try_except, process_frame_body.
  unfold bind at 1. unfold read_page at 1. fold (write_page_of s). cbv zeta.
  unfold bind at 1. rewrite (view_at_Some _ _ _ Hv).
  unfold bind at 1. unfold fill_zero at 1. fold (after_clear v s).
  rewrite Hn, Tauto.if_same, (reshape4_not_multiple _ Hmod). reflexivity.
Qed.

(** [page] holds 4 or more: [voxel_views[write_page]] raises [IndexError]
    before anything is written. *)
Lemma process_frame_no_view (data : list byte) (s : rstate) :
  py_list_index voxel_views (write_page_of s) = None ->
  process_frame data s =
  (Ok (Failed IndexError),
   snd (print (LogFrameError IndexError) (emit (EvReadPage (page (shm s))) s))).
Proof.
  intros Hv.
  unfold process_frame, try_except, process_frame_body.
  unfold bind at 1. unfold read_page at 1. fold (write_page_of s). cbv zeta.
  unfold bind at 1. rewrite (view_at_None _ _ Hv). reflexivity.
Qed.

(** The three shapes of a payload. *)
Lemma payload_cases (data : list byte) :
  (length data < 4)%nat \/
  ((4 <= length data)%nat /\ (length data mod 4 <> 0)%nat) \/
  (exists pts, reshape4 data = Some pts /\ pts <> []).
Proof.
  destruct (Nat.lt_ge_cases (length data) 4) as [H|H]; [auto|].
  destruct (Nat.eq_dec (length data mod 4)%nat 0%nat) as [E|E]; [|auto].
  right; right. destruct (reshape4_multiple _ E) as [pts Hp].
  exists pts. split; [exact Hp|]. intros ->. apply reshape4_length in Hp. simpl in Hp. lia.
Qed.

(** ** Pages and indices *)

Lemma in_page_offset (pg j : Z) :
  0 <= j < voxels_count -> in_page pg (pg * voxels_count + j) = true.
Proof.
  intros H. unfold in_page. apply andb_true_iff. split.
  - apply Z.leb_le. lia.
  - apply Z.ltb_lt. lia.
Qed.

Lemma voxel_index_offset (pg y x z : Z) :
  voxel_index pg y x z = pg * voxels_count + ((y * 128 + x) * 64 + z).
Proof.
  unfold voxel_index, voxels_x, voxels_z. lia.
Qed.

(** An in-bounds point is addressed inside its page. *)
Lemma valid_index_in_page (p : point) :
  valid_point p = true ->
  0 <= (byte_to_Z (pt_y p) * 128 + byte_to_Z (pt_x p)) * 64 + byte_to_Z (pt_z p) < voxels_count.
Proof.
  intros H. apply valid_point_bounds in H as (Hx & Hy & Hz).
  pose proof (byte_to_Z_nonneg (pt_x p)). pose proof (byte_to_Z_nonneg (pt_y p)).
  pose proof (byte_to_Z_nonneg (pt_z p)).
  unfold voxels_count, voxels_x, voxels_y, voxels_z. lia.
Qed.

Lemma poke_same (pg : Z) (p : point) (f : Z -> byte) :
  poke pg p f (voxel_index pg (byte_to_Z (pt_y p)) (byte_to_Z (pt_x p)) (byte_to_Z (pt_z p)))
  = pt_pix p.
Proof.
  unfold poke. rewrite Z.eqb_refl. reflexivity.
Qed.

Lemma poke_other (pg : Z) (p : point) (f : Z -> byte) (j : Z) :
  j <> voxel_index pg (byte_to_Z (pt_y p)) (byte_to_Z (pt_x p)) (byte_to_Z (pt_z p)) ->
  poke pg p f j = f j.
Proof.
  intros H. unfold poke. apply Z.eqb_neq in H. rewrite H. reflexivity.
Qed.

(** ** C1: a frame of one point *)

(** C1. For a payload of exactly one record [(x, y, z, c)] with [x < 128],
    [y < 128], [z < 64], processed when [page] holds 0 or 1: the frame is
    flipped; [page] then holds the index of the other page; in that page
    the byte at [(y * 128 + x) * 64 + z] is [c] and every other byte is 0. *)
Theorem single_point_frame (s : rstate) (x y z c : byte) :
  page_ok s ->
  byte_to_Z x < 128 -> byte_to_Z y < 128 -> byte_to_Z z < 64 ->
  let s' := snd (process_frame [x; y; z; c] s) in
  let new_page := byte_to_Z (page (shm s')) in
  let i := (byte_to_Z y * 128 + byte_to_Z x) * 64 + byte_to_Z z in
  fst (process_frame [x; y; z; c] s) = Ok (Flipped 0 1) /\
  new_page = 1 - byte_to_Z (page (shm s)) /\
  buffers (shm s') (new_page * voxels_count + i) = c /\
  (forall j, 0 <= j < voxels_count -> j <> i ->
             buffers (shm s') (new_page * voxels_count + j) = x00).
Proof.
  intros Hp Hx Hy Hz.
  set (p := mk_point x y z c).
  assert (Hvalid : valid_point p = true) by (apply valid_point_bounds; simpl; auto).
  destruct (process_frame_flipped [x; y; z; c] [p] (write_page_of s) s)
    as (s1 & Hrun & Hbuf & Hpage & _ & _).
  { apply view_page_ok, Hp. }
  { reflexivity. }
  { discriminate. }
  rewrite filter_valid_cons, Hvalid in Hrun, Hbuf. simpl in Hrun, Hbuf.
  rewrite count_invalid_cons, Hvalid in Hrun. simpl in Hrun.
  rewrite Hrun. cbn [fst snd].
  assert (Hnew : byte_to_Z (page (shm s1)) = write_page_of s).
  { rewrite Hpage. apply c_uint8_write_page, Hp. }
  rewrite Hnew, Hbuf. split; [reflexivity|]. split; [reflexivity|]. split.
  - rewrite <- voxel_index_offset. apply (poke_same _ p).
  - intros j Hj Hne. rewrite poke_other.
    + unfold clear_page. rewrite in_page_offset by exact Hj. reflexivity.
    + rewrite voxel_index_offset. subst p. cbn [pt_x pt_y pt_z]. lia.
Qed.

(** The scenario of the specification: [[64, 64, 32, 0xFF]] while [page] is 0. *)
Lemma single_point_frame_witness :
  let s := start_state (region xaa x00) in
  let s' := snd (process_frame [x40; x40; x20; xff] s) in
  byte_to_Z (page (shm s')) = 1 /\
  buffers (shm s') (1 * voxels_count + 528416) = xff /\
  buffers (shm s') (1 * voxels_count + 528417) = x00.
Proof.
  destruct (single_point_frame (start_state (region xaa x00)) x40 x40 x20 xff)
    as (_ & Hpage & Hc & Hrest).
  - left. reflexivity.
  - reflexivity.
  - reflexivity.
  - reflexivity.
  - cbv zeta. split; [exact Hpage|]. split.
    + exact Hc.
    + apply (Hrest 528417); [vm_compute; split; [discriminate | reflexivity] | vm_compute; discriminate].
Defined.

(** ** Rows and traces *)

Lemma rows_of_reshape4 (data : list byte) :
  forall pts, reshape4 data = Some pts -> rows_of data = pts.
Proof.
  induction data as [data IH] using (induction_ltof1 _ (@length byte)).
  unfold ltof in IH. intros pts H.
  destruct data as [|x [|y [|z [|c rest]]]]; simpl in H; try discriminate.
  - inversion H. reflexivity.
  - destruct (reshape4 rest) as [rows|] eqn:E; [|discriminate].
    inversion H; subst. simpl. f_equal. apply IH; [simpl; lia | exact E].
Qed.

Lemma rows_of_short (data : list byte) : (length data < 4)%nat -> rows_of data = [].
Proof.
  destruct data as [|x [|y [|z [|c rest]]]]; simpl; intros H; try reflexivity; lia.
Qed.

Lemma rows_of_length (data : list byte) : length (rows_of data) = (length data / 4)%nat.
Proof.
  induction data as [data IH] using (induction_ltof1 _ (@length byte)).
  unfold ltof in IH.
  destruct (Nat.lt_ge_cases (length data) 4) as [Hs|Hl].
  - rewrite rows_of_short by exact Hs. rewrite Nat.div_small by exact Hs. reflexivity.
  - destruct data as [|x [|y [|z [|c rest]]]]; simpl in Hl; try lia.
    change (rows_of (x :: y :: z :: c :: rest)) with (mk_point x y z c :: rows_of rest).
    change (length (x :: y :: z :: c :: rest)) with (4 + length rest)%nat.
    cbn [length]. rewrite IH by (simpl; lia).
    replace (4 + length rest)%nat with (length rest + 1 * 4)%nat by lia.
    rewrite Nat.div_add by lia. lia.
Qed.

Lemma stores_of_app (a b : list event) : stores_of (a ++ b) = stores_of a ++ stores_of b.
Proof.
  induction a as [|e a IH]; [reflexivity|].
  destruct e; simpl; rewrite IH; reflexivity.
Qed.

Lemma stores_of_store_events (v : Z) (pts : list point) :
  stores_of (map (store_event v) pts) = map (store_event v) pts.
Proof.
  induction pts as [|p pts IH]; [reflexivity|]. simpl. rewrite IH. reflexivity.
Qed.

Lemma after_clear_trace (v : Z) (s : rstate) :
  trace (after_clear v s) = trace s ++ [EvReadPage (page (shm s)); EvFill v].
Proof.
  unfold after_clear. simpl. rewrite <- app_assoc. reflexivity.
Qed.

Lemma after_clear_buffers (v : Z) (s : rstate) :
  buffers (shm (after_clear v s)) = clear_page v (buffers (shm s)).
Proof. reflexivity. Qed.

(** ** C4: the flip comes last, and only for a whole frame *)

(** C4. For every payload, in every state: either the iteration reaches
    the flip, and then what it did to the shared region is, in order, the
    read of [page], the clearing of the view, the stores of all rows that
    passed the bounds check, and last the write of [page]; or it does not
    (it failed or was skipped), and then [page] holds what it held and the
    trace has no write of [page]. In particular a payload whose length is
    not a multiple of four leaves [page] as it was. *)
Theorem flip_only_after_rasterizing (data : list byte) (s : rstate) :
  let r := fst (process_frame data s) in
  let s' := snd (process_frame data s) in
  exists tr, trace s' = trace s ++ tr /\
    ((exists n w v, r = Ok (Flipped n w) /\
        tr = [EvReadPage (page (shm s)); EvFill v]
             ++ map (store_event v) (filter (fun p => valid_point p = true) (rows_of data))
             ++ [EvWritePage (page (shm s'))]) \/
     ((forall n w, r <> Ok (Flipped n w)) /\
      page (shm s') = page (shm s) /\
      forallb (fun e => negb (is_page_write e)) tr = true)) /\
    ((length data mod 4 <> 0)%nat -> page (shm s') = page (shm s)).
Proof.
  cbv zeta.
  destruct (py_list_index voxel_views (write_page_of s)) as [v|] eqn:Hv.
  - destruct (payload_cases data) as [Hs | [[Hl Hm] | (pts & Hr & Hne)]].
    + rewrite (process_frame_skipped _ _ _ Hv Hs). cbn [fst snd].
      exists [EvReadPage (page (shm s)); EvFill v]. split; [apply after_clear_trace|].
      split; [|intros _; reflexivity].
      right. split; [intros n w; discriminate|]. split; reflexivity.
    + rewrite (process_frame_partial _ _ _ Hv Hl Hm). cbn [fst snd].
      exists [EvReadPage (page (shm s)); EvFill v]. split; [apply after_clear_trace|].
      split; [|intros _; reflexivity].
      right. split; [intros n w; discriminate|]. split; reflexivity.
    + destruct (process_frame_flipped _ _ _ _ Hv Hr Hne) as (s1 & Hrun & _ & Hpage & Htr & _).
      rewrite Hrun. cbn [fst snd].
      eexists. split; [exact Htr|]. split.
      * left. exists (count_invalid pts), (length (filter (fun p => valid_point p = true) pts)), v.
        split; [reflexivity|]. rewrite (rows_of_reshape4 _ _ Hr), Hpage. reflexivity.
      * intros Hm. exfalso. apply Hm. rewrite (reshape4_length _ _ Hr).
        rewrite Nat.mul_comm. apply Nat.Div0.mod_mul.
  - rewrite (process_frame_no_view _ _ Hv). cbn [fst snd].
    exists [EvReadPage (page (shm s))]. split; [reflexivity|].
    split; [|intros _; reflexivity].
    right. split; [intros n w; discriminate|]. split; reflexivity.
Qed.

(** ** C5: rows out of bounds are dropped and counted *)

Lemma store_event_inj_coords (pg pg' y x z : Z) (c : byte) (p : point) :
  EvStore pg y x z c = store_event pg' p ->
  pg = pg' /\ y = byte_to_Z (pt_y p) /\ x = byte_to_Z (pt_x p) /\ z = byte_to_Z (pt_z p).
Proof.
  unfold store_event. intros H. inversion H. auto.
Qed.

(** C5. For every payload, in every state: each element store of the
    iteration comes from a row of the payload with [x < 128], [y < 128] and
    [z < 64]; a row that violates a bound causes no store; and when the
    iteration reaches the flip, [num_invalid] is the number of rows that
    violate a bound, every other row was stored, and a count above ten is
    printed. *)
Theorem out_of_bounds_dropped (data : list byte) (s : rstate) :
  let r := fst (process_frame data s) in
  let s' := snd (process_frame data s) in
  exists tr, trace s' = trace s ++ tr /\
    (forall pg y x z c, In (EvStore pg y x z c) tr ->
       x < 128 /\ y < 128 /\ z < 64 /\
       exists p, In p (rows_of data) /\ valid_point p = true /\
                 EvStore pg y x z c = store_event pg p) /\
    (forall p pg, In p (rows_of data) -> valid_point p = false ->
       ~ In (store_event pg p) tr) /\
    (forall n w, r = Ok (Flipped n w) ->
       n = count_invalid (rows_of data) /\
       (n + w = length (rows_of data))%nat /\
       length (stores_of tr) = w /\
       ((10 < n)%nat -> In (LogFiltered n) (stdout s'))).
Proof.
  cbv zeta.
  assert (Hfirst : forall tr : list event,
    (forall pg y x z c, In (EvStore pg y x z c) tr ->
       x < 128 /\ y < 128 /\ z < 64 /\
       exists p, In p (rows_of data) /\ valid_point p = true /\
                 EvStore pg y x z c = store_event pg p) ->
    forall p pg, In p (rows_of data) -> valid_point p = false ->
       ~ In (store_event pg p) tr).
  { intros tr H p pg _ Hbad Hin. apply H in Hin as (Hx & Hy & Hz & _).
    assert (Hv : valid_point p = true) by (apply valid_point_bounds; auto).
    congruence. }
  assert (Hnone : forall tr : list event, stores_of tr = [] ->
    (forall e, In e tr -> stores_of [e] = []) ->
    forall pg y x z c, In (EvStore pg y x z c) tr ->
       x < 128 /\ y < 128 /\ z < 64 /\
       exists p, In p (rows_of data) /\ valid_point p = true /\
                 EvStore pg y x z c = store_event pg p).
  { intros tr _ H pg y x z c Hin. apply H in Hin. discriminate. }
  destruct (py_list_index voxel_views (write_page_of s)) as [v|] eqn:Hv.
  - destruct (payload_cases data) as [Hs | [[Hl Hm] | (pts & Hr & Hne)]].
    + rewrite (process_frame_skipped _ _ _ Hv Hs). cbn [fst snd].
      exists [EvReadPage (page (shm s)); EvFill v]. split; [apply after_clear_trace|].
      assert (H1 := Hnone [EvReadPage (page (shm s)); EvFill v] eq_refl).
      split; [|split]; [apply H1 | apply Hfirst, H1 | intros n w; discriminate];
        intros e [<-|[<-|[]]]; reflexivity.
    + rewrite (process_frame_partial _ _ _ Hv Hl Hm). cbn [fst snd].
      exists [EvReadPage (page (shm s)); EvFill v]. split; [apply after_clear_trace|].
      assert (H1 := Hnone [EvReadPage (page (shm s)); EvFill v] eq_refl).
      split; [|split]; [apply H1 | apply Hfirst, H1 | intros n w; discriminate];
        intros e [<-|[<-|[]]]; reflexivity.
    + destruct (process_frame_flipped _ _ _ _ Hv Hr Hne) as (s1 & Hrun & _ & _ & Htr & Hout).
      rewrite Hrun. cbn [fst snd]. rewrite (rows_of_reshape4 _ _ Hr).
      rewrite (rows_of_reshape4 _ _ Hr) in Hfirst.
      eexists. split; [exact Htr|].
      assert (H1 : forall pg y x z c,
        In (EvStore pg y x z c)
           ([EvReadPage (page (shm s)); EvFill v]
            ++ map (store_event v) (filter (fun p => valid_point p = true) pts)
            ++ [EvWritePage (c_uint8 (write_page_of s))]) ->
        x < 128 /\ y < 128 /\ z < 64 /\
        exists p, In p pts /\ valid_point p = true /\ EvStore pg y x z c = store_event pg p).
      { intros pg y x z c Hin.
        apply in_app_or in Hin as [Hin|Hin]; [destruct Hin as [H|[H|[]]]; discriminate|].
        apply in_app_or in Hin as [Hin|Hin]; [|destruct Hin as [H|[]]; discriminate].
        apply in_map_iff in Hin as (p & Hp & Hin).
        apply list_elem_of_In, list_elem_of_filter in Hin as [Hvalid Hin].
        apply list_elem_of_In in Hin.
        symmetry in Hp. destruct (store_event_inj_coords _ _ _ _ _ _ _ Hp) as (-> & -> & -> & ->).
        apply valid_point_bounds in Hvalid as Hb. destruct Hb as (Hx & Hy & Hz).
        repeat split; auto. exists p. auto. }
      split; [exact H1|]. split; [apply Hfirst, H1|].
      intros n w [= <- <-]. split; [reflexivity|]. split.
      * pose proof (kept_plus_invalid pts). lia.
      * split; [|exact Hout].
        rewrite !stores_of_app, stores_of_store_events. simpl.
        rewrite app_nil_r, length_map. reflexivity.
  - rewrite (process_frame_no_view _ _ Hv). cbn [fst snd].
    exists [EvReadPage (page (shm s))]. split; [reflexivity|].
    assert (H1 := Hnone [EvReadPage (page (shm s))] eq_refl).
    split; [|split]; [apply H1 | apply Hfirst, H1 | intros n w; discriminate];
      intros e [<-|[]]; reflexivity.
Qed.

(** ** C2: voxel writes go to the page that [page] does not name *)

Lemma process_frame_returns (data : list byte) (s : rstate) :
  exists o s', process_frame data s = (Ok o, s').
Proof.
  unfold process_frame, try_except.
  destruct (process_frame_body data s) as [[o|e] s1]; eauto.
Qed.

Lemma writes_complement_fresh (tr : list event) :
  writes_complement None tr = true -> forall o, writes_complement o tr = true.
Proof.
  induction tr as [|e tr IH]; intros H o; [reflexivity|].
  destruct e; simpl in *; auto; discriminate.
Qed.

Lemma owner_untouched_fresh (tr : list event) :
  owner_untouched None tr = true -> forall o, owner_untouched o tr = true.
Proof.
  induction tr as [|e tr IH]; intros H o; [reflexivity|].
  destruct e; simpl in *; auto; discriminate.
Qed.

Lemma writes_complement_body (v : Z) (p : byte) (body tr : list event) :
  Forall (body_event v) body -> v = 1 - byte_to_Z p ->
  writes_complement (Some p) tr = true ->
  writes_complement (Some p) (body ++ tr) = true.
Proof.
  intros Hb Hv Htr. induction Hb as [|e body He _ IH]; [exact Htr|].
  destruct e; simpl in *; try contradiction; try exact IH;
    destruct He as [He|He]; try discriminate; inversion He; subst;
    rewrite Z.eqb_refl; exact IH.
Qed.

Lemma owner_untouched_body (v : Z) (p : byte) (body tr : list event) :
  Forall (body_event v) body -> v <> byte_to_Z p ->
  owner_untouched (Some p) tr = true ->
  owner_untouched (Some p) (body ++ tr) = true.
Proof.
  intros Hb Hv Htr. apply Z.eqb_neq in Hv.
  induction Hb as [|e body He _ IH]; [exact Htr|].
  destruct e; simpl in *; try contradiction; try exact IH;
    destruct He as [He|He]; try discriminate; inversion He; subst;
    rewrite Hv; exact IH.
Qed.

Lemma store_events_body (v : Z) (pts : list point) :
  Forall (body_event v) (map (store_event v) pts).
Proof.
  induction pts as [|p pts IH]; constructor; [right; reflexivity | exact IH].
Qed.

(** One iteration under the invariant: it reads [page] once, first; all
    it writes afterwards goes to the other page; the invariant holds again. *)
Lemma frame_trace_shape (data : list byte) (s : rstate) :
  page_ok s ->
  exists body,
    trace (snd (process_frame data s)) = trace s ++ EvReadPage (page (shm s)) :: body /\
    Forall (body_event (write_page_of s)) body /\
    page_ok (snd (process_frame data s)).
Proof.
  intros Hp. pose proof (view_page_ok s Hp) as Hv.
  destruct (payload_cases data) as [Hs | [[Hl Hm] | (pts & Hr & Hne)]].
  - rewrite (process_frame_skipped _ _ _ Hv Hs). cbn [snd].
    exists [EvFill (write_page_of s)]. split; [apply after_clear_trace|].
    split; [|exact Hp]. constructor; [right; reflexivity | constructor].
  - rewrite (process_frame_partial _ _ _ Hv Hl Hm). cbn [snd].
    exists [EvFill (write_page_of s)]. split; [apply after_clear_trace|].
    split; [|exact Hp]. constructor; [right; reflexivity | constructor].
  - destruct (process_frame_flipped _ _ _ _ Hv Hr Hne) as (s1 & Hrun & _ & Hpage & Htr & _).
    rewrite Hrun. cbn [snd]. eexists. split; [exact Htr|]. split.
    + constructor; [right; reflexivity|]. apply Forall_app. split.
      * apply store_events_body.
      * constructor; [left; reflexivity | constructor].
    + unfold page_ok. rewrite Hpage.
      destruct (write_page_cases s Hp) as [[_ E]|[_ E]]; rewrite E; [right | left]; reflexivity.
Qed.

Lemma in_page_disjoint (a b j : Z) : a <> b -> in_page a j = true -> in_page b j = false.
Proof.
  unfold in_page, voxels_count, voxels_x, voxels_y, voxels_z. intros Hne H.
  apply andb_true_iff in H as [H1 H2]. apply Z.leb_le in H1. apply Z.ltb_lt in H2.
  apply andb_false_iff.
  destruct (Z.lt_ge_cases a b); [left; apply Z.leb_gt | right; apply Z.ltb_ge]; lia.
Qed.

(** Stores of in-bounds rows on page [v] leave every byte outside it. *)
Lemma paint_outside (v : Z) (pts : list point) (f : Z -> byte) (j : Z) :
  Forall (fun p => valid_point p = true) pts -> in_page v j = false ->
  paint v pts f j = f j.
Proof.
  unfold paint. intros Hall Hj. revert f.
  induction Hall as [|p pts Hp _ IH]; intros f; [reflexivity|].
  simpl. rewrite IH. apply poke_other. intros ->.
  rewrite voxel_index_offset, in_page_offset in Hj; [discriminate|].
  apply valid_index_in_page, Hp.
Qed.

(** One iteration leaves the page that [page] names as it is. *)
Lemma owner_page_preserved (data : list byte) (s : rstate) (j : Z) :
  page_ok s -> in_page (byte_to_Z (page (shm s))) j = true ->
  buffers (shm (snd (process_frame data s))) j = buffers (shm s) j.
Proof.
  intros Hp Hj. pose proof (view_page_ok s Hp) as Hv.
  assert (Hout : in_page (write_page_of s) j = false).
  { apply (in_page_disjoint (byte_to_Z (page (shm s)))); [|exact Hj].
    unfold write_page_of. lia. }
  assert (Hclear : clear_page (write_page_of s) (buffers (shm s)) j = buffers (shm s) j).
  { unfold clear_page. rewrite Hout. reflexivity. }
  destruct (payload_cases data) as [Hs | [[Hl Hm] | (pts & Hr & Hne)]].
  - rewrite (process_frame_skipped _ _ _ Hv Hs). exact Hclear.
  - rewrite (process_frame_partial _ _ _ Hv Hl Hm). exact Hclear.
  - destruct (process_frame_flipped _ _ _ _ Hv Hr Hne) as (s1 & Hrun & Hbuf & _).
    rewrite Hrun. cbn [snd]. rewrite Hbuf, paint_outside; auto using filter_valid_Forall.
Qed.

(** C2. For every sequence of payloads processed from a state in which
    [page] holds 0 or 1: in the trace of the run, every voxel write goes to
    the complement of the value returned by the latest read of [page], and
    so never to the page that read named; [page] holds 0 or 1 again at the
    end. For each single iteration, the bytes of the page that [page] names
    at its start are the same after it. *)
Theorem ownership_safety (frames : list (list byte)) (s : rstate) :
  page_ok s ->
  (exists tr,
     trace (snd (process_frames frames s)) = trace s ++ tr /\
     writes_complement None tr = true /\
     owner_untouched None tr = true /\
     page_ok (snd (process_frames frames s))) /\
  (forall data j,
     in_page (byte_to_Z (page (shm s))) j = true ->
     buffers (shm (snd (process_frame data s))) j = buffers (shm s) j).
Proof.
  intros Hp. split; [|intros data j; apply owner_page_preserved, Hp].
  revert s Hp. induction frames as [|data rest IH]; intros s Hp.
  - exists []. simpl. rewrite app_nil_r. auto.
  - destruct (frame_trace_shape data s Hp) as (body & Htr & Hbody & Hp1).
    destruct (process_frame_returns data s) as (o & s1 & Hrun).
    simpl. rewrite Hrun in *. cbn [snd] in Htr, Hp1.
    destruct (IH s1 Hp1) as (tr & Htr' & Hw & Ho & Hp').
    destruct (process_frames rest s1) as [os s2]. cbn [snd] in *.
    exists (EvReadPage (page (shm s)) :: body ++ tr). split; [|split; [|split]].
    + rewrite Htr', Htr, <- app_assoc. reflexivity.
    + simpl. apply (writes_complement_body (write_page_of s)); auto.
      apply writes_complement_fresh, Hw.
    + simpl. apply (owner_untouched_body (write_page_of s)); auto.
      * unfold write_page_of. lia.
      * apply owner_untouched_fresh, Ho.
    + exact Hp'.
Qed.

(** Three frames in a row from [page = 0]: one point, a partial row, two points. *)
Lemma ownership_safety_witness :
  let s := start_state (region xaa x00) in
  let frames := [[x40; x40; x20; xff]; [x01; x02; x03; x04; x05];
                 [x0a; x0a; x0a; x01; x0a; x0a; x0a; x02]] in
  (exists tr,
     trace (snd (process_frames frames s)) = trace s ++ tr /\
     writes_complement None tr = true /\
     owner_untouched None tr = true /\
     page_ok (snd (process_frames frames s))) /\
  (forall data j,
     in_page (byte_to_Z (page (shm s))) j = true ->
     buffers (shm (snd (process_frame data s))) j = buffers (shm s) j).
Proof.
  apply (ownership_safety _ (start_state (region xaa x00))).
  left. reflexivity.
Defined.

(** ** C3: the queue keeps the newest payload *)

Lemma offer_returns (q : list (list byte)) (d : list byte) :
  offer q d = Returns (deque_append frame_queue_maxlen q d).
Proof. reflexivity. Qed.

(** An offer into an empty or full queue leaves exactly the new payload. *)
Lemma offer_replaces (q : list (list byte)) (d : list byte) :
  (length q <= frame_queue_maxlen)%nat -> offer q d = Returns [d].
Proof.
  unfold frame_queue_maxlen. intros H.
  destruct q as [|a [|b q]]; [reflexivity | reflexivity | simpl in H; lia].
Qed.

Lemma offer_all_bounded (ds q : list (list byte)) :
  (length q <= frame_queue_maxlen)%nat ->
  exists q', offer_all q ds = Returns q' /\ (length q' <= frame_queue_maxlen)%nat.
Proof.
  revert q. induction ds as [|d ds IH]; intros q H.
  - exists q. auto.
  - cbn [offer_all]. rewrite (offer_replaces q d H). apply IH. simpl. unfold frame_queue_maxlen. lia.
Qed.

Lemma offer_all_last (ds q : list (list byte)) (d : list byte) :
  (length q <= frame_queue_maxlen)%nat -> offer_all q (ds ++ [d]) = Returns [d].
Proof.
  revert q. induction ds as [|d0 ds IH]; intros q H.
  - cbn [app offer_all]. rewrite (offer_replaces q d H). reflexivity.
  - cbn [app offer_all]. rewrite (offer_replaces q d0 H).
    apply IH. simpl. unfold frame_queue_maxlen. lia.
Qed.

(** C3. From a queue that holds at most one payload, for every sequence of
    offers [earlier ++ [latest]] with no take in between: no offer blocks;
    after each of them the queue holds at most one payload; after the last
    it holds exactly [latest], which the next take returns, leaving the
    queue empty; and an offer into a full queue replaces what it held. *)
Theorem newest_wins (q earlier : list (list byte)) (latest : list byte) :
  (length q <= frame_queue_maxlen)%nat ->
  (forall q0 d, exists q1, offer q0 d = Returns q1) /\
  (forall k, exists qk,
     offer_all q (take k (earlier ++ [latest])) = Returns qk /\ (length qk <= 1)%nat) /\
  (exists q', offer_all q (earlier ++ [latest]) = Returns q' /\
              take_frame q' = (Some latest, [])) /\
  (forall old new, offer [old] new = Returns [new]).
Proof.
  intros H. split; [|split; [|split]].
  - intros q0 d. eexists. apply offer_returns.
  - intros k. apply offer_all_bounded, H.
  - exists [latest]. split; [apply offer_all_last, H | reflexivity].
  - intros old new. reflexivity.
Qed.

(** The scenario of the specification: A, B, C offered, the take returns C. *)
Lemma newest_wins_witness :
  exists q', offer_all [] ([[x0a]; [x0b]] ++ [[x0c]]) = Returns q' /\
             take_frame q' = (Some [x0c], []).
Proof.
  destruct (newest_wins [] [[x0a]; [x0b]] [x0c]) as (_ & _ & H & _).
  - simpl. unfold frame_queue_maxlen. lia.
  - exact H.
Defined.

(** The older receiver's queue of two keeps the two oldest payloads and
    returns the oldest. *)
Lemma legacy_queue_keeps_oldest :
  Legacy.offer_all [] [[x0a]; [x0b]; [x0c]] = Returns [[x0a]; [x0b]] /\
  Legacy.get [[x0a]; [x0b]] = Returns ([x0a], [[x0b]]).
Proof. split; reflexivity. Qed.

(** ** C9: start-up without a usable region *)

(** C9, as stated, fails: with the region missing, a free port and no
    interrupt, the process does not exit; it serves connections with its
    processing thread returned. The same with a region of 100 bytes. *)
Lemma missing_region_keeps_serving :
  run (mk_env ShmMissing true false) = Serving (ThreadReturned FileNotFoundError) /\
  run (mk_env (ShmFile 100) true false) = Serving (ThreadReturned ValueError) /\
  ~ (exists code, code <> 0 /\ run (mk_env ShmMissing true false) = Exited code).
Proof.
  split; [reflexivity|]. split; [reflexivity|].
  intros (code & _ & H). discriminate H.
Qed.

(** C9, amended. When the region is missing or smaller than the structure,
    the processing thread returns from [process_data] with the exception
    and never enters its loop; the process itself keeps serving connections
    when the port is free and no interrupt arrives; and whenever the
    process exits, its status is 0. *)
Theorem unusable_region_stops_thread_only (env : environment) :
  region_unusable (env_shm env) ->
  exists e,
    process_data_start (env_shm env) = ThreadReturned e /\
    (env_port_free env = true -> env_interrupt env = false ->
     run env = Serving (ThreadReturned e)) /\
    (forall code, run env = Exited code -> code = 0).
Proof.
  intros Hbad.
  assert (He : exists e, process_data_start (env_shm env) = ThreadReturned e).
  { destruct Hbad as [H | (size & H & Hsize)]; rewrite H.
    - exists FileNotFoundError. reflexivity.
    - exists ValueError. unfold process_data_start, open_shm.
      apply Z.ltb_lt in Hsize. rewrite Hsize. reflexivity. }
  destruct He as [e He]. exists e. split; [exact He|]. split.
  - intros Hport Hint. unfold run, main. rewrite Hport, Hint, He. reflexivity.
  - intros code. unfold run, main.
    destruct (env_port_free env); [destruct (env_interrupt env)|]; intros H; inversion H; reflexivity.
Qed.

Lemma unusable_region_stops_thread_only_witness :
  exists e,
    process_data_start ShmMissing = ThreadReturned e /\
    (true = true -> false = false ->
     run (mk_env ShmMissing true false) = Serving (ThreadReturned e)) /\
    (forall code, run (mk_env ShmMissing true false) = Exited code -> code = 0).
Proof.
  apply (unusable_region_stops_thread_only (mk_env ShmMissing true false)).
  left. reflexivity.
Defined.

(** ** The handler on whole frames *)

Lemma readexactly_app (n : Z) (a b : list byte) :
  Z.of_nat (length a) = n -> readexactly n (a ++ b) = Some (a, b).
Proof.
  intros <-. unfold readexactly. rewrite length_app, Nat2Z.id.
  rewrite take_app_length, drop_app_length.
  destruct (Z.of_nat (length a) <=? Z.of_nat (length a + length b)%nat) eqn:E; [reflexivity|].
  apply Z.leb_gt in E. lia.
Qed.

Lemma readexactly_short (n : Z) (input : list byte) :
  Z.of_nat (length input) < n -> readexactly n input = None.
Proof.
  intros H. unfold readexactly. apply Z.leb_gt in H. rewrite H. reflexivity.
Qed.

Lemma bytes_eqb_eq (a b : list byte) : bytes_eqb a b = true <-> a = b.
Proof.
  revert b. induction a as [|x a IH]; intros [|y b]; simpl; split; intros H;
    try reflexivity; try discriminate.
  - apply andb_true_iff in H as [H1 H2]. apply Byte.byte_dec_bl in H1.
    apply IH in H2. congruence.
  - inversion H; subst. apply andb_true_iff. split.
    + apply Byte.byte_dec_lb. reflexivity.
    + apply IH. reflexivity.
Qed.

(** [struct.unpack('!I', struct.pack('>I', n))] is [n]. *)
Lemma unpack_pack (n : Z) :
  0 <= n < 4294967296 -> unpack_u32_be (pack_u32_be n) = Some n.
Proof.
  intros H. unfold unpack_u32_be, pack_u32_be. rewrite !c_uint8_byte_to_Z. f_equal.
  Z.to_euclidean_division_equations. lia.
Qed.

Section HandlerProperties.

Variable gzip_decompress : list byte -> gz_result.

(** The loop of [handle_client], one iteration unrolled. *)
Lemma handle_client_step (input : list byte) (q : list (list byte)) :
  handle_client gzip_decompress input q =
  match handle_iteration gzip_decompress input q with
  | (Open rest, q') => handle_client gzip_decompress rest q'
  | (ConnClosed why, q') => (why, q')
  end.
Proof.
  funelim (handle_client gzip_decompress input q).
  - rewrite E. reflexivity.
  - rewrite E. reflexivity.
Qed.

(** A header with the signature and a length field [L] within the limit,
    followed by [L] bytes: the payload is decompressed; a payload that
    decompresses is appended to the queue, any other is dropped, and the
    loop goes on with what follows the frame. *)
Lemma handle_iteration_frame (L : Z) (compressed rest : list byte) (q : list (list byte)) :
  Z.of_nat (length compressed) = L -> L <= max_packet_length ->
  handle_iteration gzip_decompress (signature ++ pack_u32_be L ++ compressed ++ rest) q =
  match gzip_decompress compressed with
  | GzOk decompressed => (Open rest, deque_append frame_queue_maxlen q decompressed)
  | _ => (Open rest, q)
  end.
Proof.
  intros HL Hmax. unfold handle_iteration.
  replace (signature ++ pack_u32_be L ++ compressed ++ rest)
    with ((signature ++ pack_u32_be L) ++ compressed ++ rest) by (rewrite <- app_assoc; reflexivity).
  rewrite (readexactly_app 8 (signature ++ pack_u32_be L)) by reflexivity.
  change (take 4 (signature ++ pack_u32_be L)) with signature.
  change (drop 4 (signature ++ pack_u32_be L)) with (pack_u32_be L).
  change (negb (bytes_eqb signature signature)) with false. cbv iota.
  rewrite unpack_pack by (unfold max_packet_length in Hmax; lia).
  apply Z.ltb_ge in Hmax. rewrite Hmax.
  rewrite (readexactly_app L compressed rest HL).
  destruct (gzip_decompress compressed); reflexivity.
Qed.

(** Each protocol error ends the iteration with the connection closed and
    the queue as it was. *)
Lemma iteration_closes_on_error (input : list byte) (q : list (list byte)) :
  protocol_error input ->
  exists why, handle_iteration gzip_decompress input q = (ConnClosed why, q).
Proof.
  intros H. unfold handle_iteration. destruct H as [header rest Hlen Hsig | L rest HL | partial Hlen | L partial HL Hshort].
  - rewrite (readexactly_app 8 header rest) by (rewrite Hlen; reflexivity).
    destruct (bytes_eqb (take 4 header) signature) eqn:E.
    + apply bytes_eqb_eq in E. contradiction.
    + exists InvalidSignature. reflexivity.
  - replace (signature ++ pack_u32_be L ++ rest)
      with ((signature ++ pack_u32_be L) ++ rest) by (rewrite <- app_assoc; reflexivity).
    rewrite (readexactly_app 8 (signature ++ pack_u32_be L)) by reflexivity.
    change (take 4 (signature ++ pack_u32_be L)) with signature.
    change (drop 4 (signature ++ pack_u32_be L)) with (pack_u32_be L).
    change (negb (bytes_eqb signature signature)) with false. cbv iota.
    rewrite unpack_pack by (unfold max_packet_length in HL; lia).
    destruct HL as [HL _]. apply Z.ltb_lt in HL. rewrite HL.
    exists (PacketTooLarge L). reflexivity.
  - rewrite readexactly_short by lia. exists IncompleteRead. reflexivity.
  - replace (signature ++ pack_u32_be L ++ partial)
      with ((signature ++ pack_u32_be L) ++ partial) by (rewrite <- app_assoc; reflexivity).
    rewrite (readexactly_app 8 (signature ++ pack_u32_be L)) by reflexivity.
    change (take 4 (signature ++ pack_u32_be L)) with signature.
    change (drop 4 (signature ++ pack_u32_be L)) with (pack_u32_be L).
    change (negb (bytes_eqb signature signature)) with false. cbv iota.
    rewrite unpack_pack by (unfold max_packet_length in HL; lia).
    destruct HL as [_ HL]. apply Z.ltb_ge in HL. rewrite HL.
    rewrite readexactly_short by exact Hshort. exists IncompleteRead. reflexivity.
Qed.

End HandlerProperties.

Lemma wire_frame_app (compressed rest : list byte) :
  wire_frame compressed ++ rest =
  signature ++ pack_u32_be (Z.of_nat (length compressed)) ++ compressed ++ rest.
Proof.
  unfold wire_frame. rewrite <- !app_assoc. reflexivity.
Qed.

(** ** C6: a payload that does not decompress *)

(** C6. On a connection that sends a frame whose payload fails to
    decompress (with [BadGzipFile] or with any other exception), then a
    frame whose payload decompresses, then [rest]: the first iteration
    leaves the queue as it was and the connection open at the second
    frame; the next iteration appends the second payload to the queue; and
    the loop as a whole goes on from [rest] with that queue. *)
Theorem bad_gzip_frame_discarded (gzip_decompress : list byte -> gz_result)
    (bad good rest payload : list byte) (q : list (list byte)) :
  Z.of_nat (length bad) <= max_packet_length ->
  Z.of_nat (length good) <= max_packet_length ->
  (forall d, gzip_decompress bad <> GzOk d) ->
  gzip_decompress good = GzOk payload ->
  handle_iteration gzip_decompress (wire_frame bad ++ wire_frame good ++ rest) q
    = (Open (wire_frame good ++ rest), q) /\
  handle_iteration gzip_decompress (wire_frame good ++ rest) q
    = (Open rest, deque_append frame_queue_maxlen q payload) /\
  handle_client gzip_decompress (wire_frame bad ++ wire_frame good ++ rest) q
    = handle_client gzip_decompress rest (deque_append frame_queue_maxlen q payload).
Proof.
  intros Hbad Hgood Hfail Hok.
  assert (H1 : handle_iteration gzip_decompress (wire_frame bad ++ wire_frame good ++ rest) q
               = (Open (wire_frame good ++ rest), q)).
  { rewrite wire_frame_app, handle_iteration_frame by auto.
    destruct (gzip_decompress bad) as [d| |] eqn:E; [|reflexivity|reflexivity].
    exfalso. apply (Hfail d). reflexivity. }
  assert (H2 : handle_iteration gzip_decompress (wire_frame good ++ rest) q
               = (Open rest, deque_append frame_queue_maxlen q payload)).
  { rewrite wire_frame_app, handle_iteration_frame by auto. rewrite Hok. reflexivity. }
  split; [exact H1|]. split; [exact H2|].
  rewrite handle_client_step, H1. rewrite handle_client_step, H2. reflexivity.
Qed.

(** Three bytes that are not a stream, then a stream of four stored bytes,
    then the end of the connection. *)
Lemma bad_gzip_frame_discarded_witness :
  handle_client stored_decompress
    (wire_frame [x00; x01; x02] ++ wire_frame [x1f; x8b; x04; x01; x02; x03; x04] ++ []) []
  = handle_client stored_decompress [] (deque_append frame_queue_maxlen [] [x01; x02; x03; x04]).
Proof.
  apply (bad_gzip_frame_discarded stored_decompress
           [x00; x01; x02] [x1f; x8b; x04; x01; x02; x03; x04] [] [x01; x02; x03; x04] []).
  - vm_compute. discriminate.
  - vm_compute. discriminate.
  - intros d. vm_compute. discriminate.
  - reflexivity.
Defined.

(** The older handler catches [BadGzipFile] only: a truncated stream
    closes the connection. *)
Lemma legacy_truncated_gzip_closes :
  Legacy.handle_iteration stored_decompress (wire_frame [x1f; x8b; x04; x01]) []
  = (ConnClosed OtherException, []).
Proof. reflexivity. Qed.

(** ** C7: protocol errors close one connection *)

(** C7. For a connection at the top of its loop whose peer sends a
    protocol error (a header without the signature, a length field above
    10,000,000, or a stream that ends inside a header or a payload): its
    handler closes it; a length above the limit closes it whatever follows
    the header, so before any payload byte is read; no other connection
    changes state; the queue is as it was; and every other connection is
    then served exactly as it would have been without the error. *)
Theorem protocol_error_closes_connection (gzip_decompress : list byte -> gz_result)
    (srv : server) (i : nat) (input : list byte) :
  conns srv !! i = Some (Open input) ->
  protocol_error input ->
  (exists why, conns (serve gzip_decompress i srv) !! i = Some (ConnClosed why)) /\
  (forall L rest q, max_packet_length < L < 4294967296 ->
     handle_iteration gzip_decompress (signature ++ pack_u32_be L ++ rest) q
     = (ConnClosed (PacketTooLarge L), q)) /\
  (forall j, j <> i -> conns (serve gzip_decompress i srv) !! j = conns srv !! j) /\
  frame_queue (serve gzip_decompress i srv) = frame_queue srv /\
  (forall j, j <> i ->
     conns (serve gzip_decompress j (serve gzip_decompress i srv)) !! j
       = conns (serve gzip_decompress j srv) !! j /\
     frame_queue (serve gzip_decompress j (serve gzip_decompress i srv))
       = frame_queue (serve gzip_decompress j srv)).
Proof.
  intros Hopen Herr.
  destruct (iteration_closes_on_error gzip_decompress input (frame_queue srv) Herr) as [why Hwhy].
  assert (Hserve : serve gzip_decompress i srv
                   = mk_server (<[i := ConnClosed why]> (conns srv)) (frame_queue srv)).
  { unfold serve. rewrite Hopen, Hwhy. reflexivity. }
  split; [|split; [|split; [|split]]].
  - exists why. rewrite Hserve. simpl. apply lookup_insert_eq.
  - intros L rest q HL.
    destruct (iteration_closes_on_error gzip_decompress _ q (OverSize L rest HL)) as [w Hw].
    rewrite Hw. f_equal. f_equal.
    unfold handle_iteration in Hw.
    replace (signature ++ pack_u32_be L ++ rest)
      with ((signature ++ pack_u32_be L) ++ rest) in Hw by (rewrite <- app_assoc; reflexivity).
    rewrite (readexactly_app 8 (signature ++ pack_u32_be L)) in Hw by reflexivity.
    change (take 4 (signature ++ pack_u32_be L)) with signature in Hw.
    change (drop 4 (signature ++ pack_u32_be L)) with (pack_u32_be L) in Hw.
    change (negb (bytes_eqb signature signature)) with false in Hw. cbv iota in Hw.
    rewrite unpack_pack in Hw by (unfold max_packet_length in HL; lia).
    destruct HL as [HL _]. apply Z.ltb_lt in HL. rewrite HL in Hw. congruence.
  - intros j Hj. rewrite Hserve. simpl. apply lookup_insert_ne. congruence.
  - rewrite Hserve. reflexivity.
  - intros j Hj. rewrite Hserve. unfold serve. simpl.
    rewrite lookup_insert_ne by congruence.
    destruct (conns srv !! j) as [[inp|w]|] eqn:Ej.
    + destruct (handle_iteration gzip_decompress inp (frame_queue srv)) as [c q'].
      simpl. rewrite !lookup_insert_eq. auto.
    + simpl. rewrite lookup_insert_ne by congruence. auto.
    + simpl. rewrite lookup_insert_ne by congruence. auto.
Qed.

(** Two connections: number 0 sends a header that ends in [fe], number 1
    sends a whole frame. *)
Lemma protocol_error_closes_connection_witness :
  let srv := mk_server
    (<[0%nat := Open ([xff; xff; xff; xfe; x00; x00; x00; x00] ++ [])]>
       (<[1%nat := Open (wire_frame [x1f; x8b; x01; x07])]> ∅)) [] in
  (exists why, conns (serve stored_decompress 0%nat srv) !! 0%nat = Some (ConnClosed why)) /\
  (forall j, j <> 0%nat -> conns (serve stored_decompress 0%nat srv) !! j = conns srv !! j).
Proof.
  cbv zeta.
  destruct (protocol_error_closes_connection stored_decompress
    (mk_server
      (<[0%nat := Open ([xff; xff; xff; xfe; x00; x00; x00; x00] ++ [])]>
         (<[1%nat := Open (wire_frame [x1f; x8b; x01; x07])]> ∅)) [])
    0%nat ([xff; xff; xff; xfe; x00; x00; x00; x00] ++ []))
    as (H1 & _ & H2 & _).
  - simpl. apply lookup_insert_eq.
  - apply WrongSignature; [reflexivity | vm_compute; discriminate].
  - split; [exact H1 | exact H2].
Defined.

(** The older handler has no limit on the length field: it goes on to read
    the payload. *)
Lemma legacy_no_length_limit :
  handle_iteration stored_decompress (signature ++ pack_u32_be 10000001) []
    = (ConnClosed (PacketTooLarge 10000001), []) /\
  Legacy.handle_iteration stored_decompress (signature ++ pack_u32_be 10000001) []
    = (ConnClosed IncompleteRead, []).
Proof. split; reflexivity. Qed.

(** ** C8: the empty frame *)

(** C8, as stated, fails: a header with length field 0 puts the empty
    payload in the queue; the processing thread takes it, clears page 1
    while [page] is 0, and goes back to the top of its loop at
    [if num_points == 0: continue]: [page] still holds 0, not 1. *)
Lemma empty_frame_not_flipped :
  let s := start_state (region xaa x00) in
  let srv := handle_iteration stored_decompress (wire_frame []) [] in
  let r := rasterizer_iteration (snd srv) s in
  srv = (Open [], [[]]) /\
  snd (fst r) = Some Skipped /\
  buffers (shm (snd r)) (1 * voxels_count + 7) = x00 /\
  page (shm (snd r)) = x00 /\
  page (shm (snd r)) <> c_uint8 (write_page_of s).
Proof.
  cbv zeta. repeat split; try reflexivity. vm_compute. discriminate.
Qed.

(** The older receiver has no such test: there the empty payload is
    flipped, with the other page cleared. *)
Lemma legacy_empty_frame_flips :
  let r := Legacy.process_frame [] (start_state (region xaa x00)) in
  fst r = Ok (Flipped 0 0) /\
  page (shm (snd r)) = x01 /\
  buffers (shm (snd r)) (1 * voxels_count + 7) = x00 /\
  trace (snd r) = [EvReadPage x00; EvFill 1; EvWritePage x01].
Proof. repeat split; reflexivity. Qed.

(** C8, amended. For a frame with the signature and length field 0, when
    the decompressor yields the empty payload for the empty input: the
    handler appends the empty payload to the queue; the processing thread,
    on taking it with [page] in 0..1, sets every byte of the other page to
    0, leaves the page that [page] names as it is, and does not write
    [page]: the iteration ends at [continue] and [page] holds what it held. *)
Theorem empty_frame_clears_without_flip (gzip_decompress : list byte -> gz_result)
    (rest : list byte) (q : list (list byte)) (s : rstate) :
  gzip_decompress [] = GzOk [] ->
  page_ok s ->
  let s' := snd (process_frame [] s) in
  handle_iteration gzip_decompress (wire_frame [] ++ rest) q
    = (Open rest, deque_append frame_queue_maxlen q []) /\
  rasterizer_iteration [[]] s = ([], Some Skipped, s') /\
  (forall j, 0 <= j < voxels_count ->
     buffers (shm s') (write_page_of s * voxels_count + j) = x00) /\
  (forall j, in_page (write_page_of s) j = false -> buffers (shm s') j = buffers (shm s) j) /\
  page (shm s') = page (shm s) /\
  trace s' = trace s ++ [EvReadPage (page (shm s)); EvFill (write_page_of s)].
Proof.
  intros Hgz Hp. cbv zeta.
  pose proof (view_page_ok s Hp) as Hv.
  assert (Hrun : process_frame [] s = (Ok Skipped, after_clear (write_page_of s) s)).
  { apply process_frame_skipped; [exact Hv | simpl; lia]. }
  split; [|split; [|split; [|split; [|split]]]].
  - rewrite wire_frame_app, handle_iteration_frame; [rewrite Hgz; reflexivity | reflexivity |].
    unfold max_packet_length. simpl. lia.
  - unfold rasterizer_iteration, take_frame. rewrite Hrun. reflexivity.
  - intros j Hj. rewrite Hrun. cbn [snd]. rewrite after_clear_buffers.
    unfold clear_page. rewrite in_page_offset by exact Hj. reflexivity.
  - intros j Hj. rewrite Hrun. cbn [snd]. rewrite after_clear_buffers.
    unfold clear_page. rewrite Hj. reflexivity.
  - rewrite Hrun. reflexivity.
  - rewrite Hrun. apply after_clear_trace.
Qed.

Lemma empty_frame_clears_without_flip_witness :
  let s := start_state (region xaa x01) in
  let s' := snd (process_frame [] s) in
  rasterizer_iteration [[]] s = ([], Some Skipped, s') /\
  page (shm s') = page (shm s).
Proof.
  destruct (empty_frame_clears_without_flip stored_decompress [] []
              (start_state (region xaa x01))) as (_ & H1 & _ & _ & H2 & _).
  - reflexivity.
  - right. reflexivity.
  - split; [exact H1 | exact H2].
Defined.

(** ** C10: no limit on the decompressed payload *)

(** C10, as stated, fails: the empty payload has length 0, a multiple of
    four, and the handler puts it in the queue like any other; but the
    processing thread drops it at [if num_points == 0: continue], that is
    on its number of points: [page] is not written. A payload of one row
    is flipped, even when that row is out of bounds and nothing is stored. *)
Lemma empty_payload_dropped_on_point_count :
  let s := start_state (region xaa x00) in
  (length (@nil byte) mod 4 = 0)%nat /\
  handle_iteration stored_decompress (wire_frame []) [] = (Open [], [[]]) /\
  fst (process_frame [] s) = Ok Skipped /\
  page (shm (snd (process_frame [] s))) = page (shm s) /\
  fst (process_frame [xc8; x00; x00; xaa] s) = Ok (Flipped 1 0) /\
  page (shm (snd (process_frame [xc8; x00; x00; xaa] s))) = x01.
Proof.
  cbv zeta. repeat split; reflexivity.
Qed.

(** C10, amended. For a frame whose compressed payload is within the
    limit and decompresses to [data], of any length: the handler appends
    [data] to the queue whole. When [data] is not empty, its length is a
    multiple of four and [page] is in 0..1, the processing thread's
    iteration on [data] has one row per four bytes, stores every row that
    passes the bounds check, in order, and nothing else, counts the other
    rows invalid, and reaches the flip: [page] is written with the index of
    the other page. Nothing else in the iteration depends on the number of
    rows. *)
Theorem limit_on_wire_length_only (gzip_decompress : list byte -> gz_result)
    (compressed rest data : list byte) (q : list (list byte)) (s : rstate) :
  Z.of_nat (length compressed) <= max_packet_length ->
  gzip_decompress compressed = GzOk data ->
  (length data mod 4 = 0)%nat ->
  data <> [] ->
  page_ok s ->
  let rows := rows_of data in
  let kept := filter (fun p => valid_point p = true) rows in
  handle_iteration gzip_decompress (wire_frame compressed ++ rest) q
    = (Open rest, deque_append frame_queue_maxlen q data) /\
  length rows = (length data / 4)%nat /\
  (count_invalid rows + length kept = length rows)%nat /\
  fst (process_frame data s) = Ok (Flipped (count_invalid rows) (length kept)) /\
  byte_to_Z (page (shm (snd (process_frame data s)))) = 1 - byte_to_Z (page (shm s)) /\
  trace (snd (process_frame data s))
    = trace s ++ [EvReadPage (page (shm s)); EvFill (write_page_of s)]
              ++ map (store_event (write_page_of s)) kept
              ++ [EvWritePage (page (shm (snd (process_frame data s))))].
Proof.
  intros Hlen Hgz Hmod Hne Hp rows kept.
  pose proof (view_page_ok s Hp) as Hv.
  destruct (reshape4_multiple data Hmod) as [pts Hr].
  assert (Hrows : rows = pts) by (apply rows_of_reshape4, Hr).
  assert (Hpts : pts <> []).
  { intros ->. apply reshape4_length in Hr. destruct data; [congruence | simpl in Hr; lia]. }
  destruct (process_frame_flipped _ _ _ _ Hv Hr Hpts) as (s1 & Hrun & _ & Hpage & Htr & _).
  split; [|split; [|split; [|split; [|split]]]].
  - rewrite wire_frame_app, handle_iteration_frame by auto. rewrite Hgz. reflexivity.
  - apply rows_of_length.
  - pose proof (kept_plus_invalid rows). unfold kept. lia.
  - rewrite Hrun. unfold kept. rewrite Hrows. reflexivity.
  - rewrite Hrun. cbn [snd]. rewrite Hpage. apply c_uint8_write_page, Hp.
  - rewrite Hrun. cbn [snd]. rewrite Htr, Hpage. unfold kept. rewrite Hrows. reflexivity.
Qed.

(** A stream of eight stored bytes: two rows, the first out of bounds. *)
Lemma limit_on_wire_length_only_witness :
  let data := [xc8; x00; x00; xaa; x00; x00; x00; x55] in
  let s := start_state (region xaa x00) in
  handle_iteration stored_decompress (wire_frame ([x1f; x8b; x08] ++ data) ++ []) []
    = (Open [], deque_append frame_queue_maxlen [] data) /\
  fst (process_frame data s) = Ok (Flipped 1 1).
Proof.
  destruct (limit_on_wire_length_only stored_decompress
              ([x1f; x8b; x08] ++ [xc8; x00; x00; xaa; x00; x00; x00; x55]) []
              [xc8; x00; x00; xaa; x00; x00; x00; x55] []
              (start_state (region xaa x00))) as (H1 & _ & _ & H2 & _).
  - vm_compute. discriminate.
  - reflexivity.
  - reflexivity.
  - discriminate.
  - left. reflexivity.
  - split; [exact H1 | exact H2].
Defined.

(** * Further properties of the receiver *)

(** ** The whole state after an iteration *)

(** The iteration on a payload of whole rows, field by field: [st] is the
    state just before the counters are updated. *)
Lemma process_frame_flipped_state (data : list byte) (pts : list point) (v : Z) (s : rstate) :
  py_list_index voxel_views (write_page_of s) = Some v ->
  reshape4 data = Some pts -> pts <> [] ->
  let kept := filter (fun p => valid_point p = true) pts in
  exists st,
    process_frame data s
      = (Ok (Flipped (count_invalid pts) (length kept)), snd (count_frame (length kept) st)) /\
    buffers (shm st) = paint v kept (clear_page v (buffers (shm s))) /\
    page (shm st) = c_uint8 (write_page_of s) /\
    (bpc (shm st), flags (shm st), rpm (shm st), uspf (shm st))
      = (bpc (shm s), flags (shm s), rpm (shm s), uspf (shm s)) /\
    frame_count st = frame_count s /\
    last_print st = last_print s /\
    stdout st = stdout s ++ (if (10 <? count_invalid pts)%nat
                             then [LogFiltered (count_invalid pts)] else []).
Proof.
  intros Hv Hr Hne kept.
  assert (Hn : ((length data / 4 =? 0) = false)%nat).
  { apply Nat.eqb_neq. rewrite (reshape4_length _ _ Hr).
    rewrite Nat.mul_comm, Nat.div_mul by lia. destruct pts; [congruence | simpl; lia]. }
  unfold process_frame, try_except, process_frame_body.
  unfold bind at 1. unfold read_page at 1. fold (write_page_of s). cbv zeta.
  unfold bind at 1. rewrite (view_at_Some _ _ _ Hv).
  unfold bind at 1. unfold fill_zero at 1. fold (after_clear v s).
  rewrite Hn, Tauto.if_same, Hr.
  unfold bind at 1. unfold ret at 1.
  rewrite filter_stage. fold kept.
  unfold bind at 1. rewrite scatter_guard, scatter_spec.
  unfold bind at 1. unfold write_page_field at 1.
  unfold bind at 1.
  match goal with |- context [count_frame ?n ?st] =>
    exists st; pose proof (count_frame_ok n st) as Hc1;
    destruct (count_frame n st) as [r s1] end.
  simpl in Hc1. subst r. unfold ret. split; [reflexivity|].
  unfold after_filter. destruct (10 <? count_invalid pts)%nat; simpl.
  - repeat split; reflexivity.
  - rewrite app_nil_r. repeat split; reflexivity.
Qed.

Lemma count_frame_counters (n : nat) (s : rstate) :
  frame_count (snd (count_frame n s)) = frame_count s + 1 /\
  (last_print (snd (count_frame n s)) =
     if 100 <=? frame_count s + 1 - last_print s then frame_count s + 1 else last_print s) /\
  (stdout (snd (count_frame n s)) =
     stdout s ++ if 100 <=? frame_count s + 1 - last_print s
                 then [LogProcessed (frame_count s + 1) n] else []).
Proof.
  unfold count_frame. destruct (100 <=? frame_count s + 1 - last_print s); simpl.
  - auto.
  - rewrite app_nil_r. auto.
Qed.

Lemma whole_payload_rows (data : list byte) :
  whole_payload data = true ->
  exists pts, reshape4 data = Some pts /\ pts <> [] /\ rows_of data = pts.
Proof.
  unfold whole_payload. intros H. apply andb_true_iff in H as [H4 Hm].
  apply Nat.leb_le in H4. apply Nat.eqb_eq in Hm.
  destruct (reshape4_multiple _ Hm) as [pts Hr]. exists pts.
  split; [exact Hr|]. split; [|apply rows_of_reshape4, Hr].
  intros ->. apply reshape4_length in Hr. simpl in Hr. lia.
Qed.

Lemma not_whole_payload (data : list byte) :
  whole_payload data = false ->
  (length data < 4)%nat \/ ((4 <= length data)%nat /\ (length data mod 4 <> 0)%nat).
Proof.
  unfold whole_payload. intros H.
  destruct (Nat.lt_ge_cases (length data) 4) as [Hs|Hl]; [auto|]. right. split; [exact Hl|].
  apply andb_false_iff in H as [H|H].
  - apply Nat.leb_gt in H. lia.
  - apply Nat.eqb_neq in H. exact H.
Qed.

(** One iteration under the invariant, summed up: a whole payload flips
    [page] to the other page and counts one frame; any other payload
    leaves [page] and the counter as they are. *)
Lemma frame_summary (data : list byte) (s : rstate) :
  page_ok s ->
  let o := fst (process_frame data s) in
  let s' := snd (process_frame data s) in
  exists out, o = Ok out /\ is_flipped out = whole_payload data /\
    if whole_payload data
    then byte_to_Z (page (shm s')) = 1 - byte_to_Z (page (shm s)) /\
         frame_count s' = frame_count s + 1
    else page (shm s') = page (shm s) /\ frame_count s' = frame_count s.
Proof.
  intros Hp. cbv zeta. pose proof (view_page_ok s Hp) as Hv.
  destruct (whole_payload data) eqn:Hw.
  - destruct (whole_payload_rows _ Hw) as (pts & Hr & Hne & _).
    destruct (process_frame_flipped_state _ _ _ _ Hv Hr Hne)
      as (st & Hrun & _ & Hpage & _ & Hfc & _).
    rewrite Hrun. cbn [fst snd]. eexists. split; [reflexivity|]. split; [reflexivity|].
    destruct (count_frame_counters (length (filter (fun p => valid_point p = true) pts)) st)
      as (Hc & _). rewrite Hc, Hfc, count_frame_shm, Hpage.
    split; [apply c_uint8_write_page, Hp | reflexivity].
  - destruct (not_whole_payload _ Hw) as [Hs | [Hl Hm]].
    + rewrite (process_frame_skipped _ _ _ Hv Hs). cbn [fst snd].
      exists Skipped. repeat split.
    + rewrite (process_frame_partial _ _ _ Hv Hl Hm). cbn [fst snd].
      exists (Failed ValueError). repeat split.
Qed.

(** ** Page alternation *)

(** X1. For every sequence of payloads processed from a state in which
    [page] holds 0 or 1: there is one outcome per payload; the iterations
    that reach the flip are exactly those of the payloads with at least one
    row and no partial row; [page] ends at its first value plus the number
    of flips, modulo 2; and [frame_count] has grown by the number of flips. *)
Theorem page_alternates (frames : list (list byte)) (s : rstate) :
  page_ok s ->
  let os := fst (process_frames frames s) in
  let s' := snd (process_frames frames s) in
  map is_flipped os = map whole_payload frames /\
  byte_to_Z (page (shm s')) = (byte_to_Z (page (shm s)) + Z.of_nat (flips os)) mod 2 /\
  frame_count s' = frame_count s + Z.of_nat (flips os).
Proof.
  revert s. induction frames as [|data rest IH]; intros s Hp; cbv zeta.
  - unfold flips. simpl. split; [reflexivity|]. split; [|lia].
    destruct Hp as [H|H]; rewrite H; reflexivity.
  - destruct (frame_summary data s Hp) as (out & Ho & Hfl & Hsum).
    destruct (frame_trace_shape data s Hp) as (_ & _ & _ & Hp1).
    simpl process_frames.
    destruct (process_frame data s) as [r s1]. cbn [fst snd] in *. subst r.
    specialize (IH s1 Hp1). cbv zeta in IH.
    destruct (process_frames rest s1) as [os s2]. cbn [fst snd] in *.
    destruct IH as (IH1 & IH2 & IH3).
    split; [simpl; rewrite Hfl, IH1; reflexivity|].
    unfold flips in *. rewrite filter_cons.
    destruct (whole_payload data); rewrite Hfl.
    + destruct Hsum as [Hpg Hfc].
      rewrite decide_True by reflexivity. cbn [length].
      rewrite IH2, IH3, Hpg, Hfc.
      split; [|lia].
      assert (Hb : byte_to_Z (page (shm s)) = 0 \/ byte_to_Z (page (shm s)) = 1)
        by (destruct Hp as [H|H]; rewrite H; auto).
      rewrite Nat2Z.inj_succ.
      destruct Hb as [-> | ->]; Z.to_euclidean_division_equations; lia.
    + destruct Hsum as [Hpg Hfc].
      rewrite decide_False by discriminate.
      rewrite IH2, IH3, Hpg, Hfc. split; [reflexivity | lia].
Qed.

(** Three payloads from [page = 0]: a point, a partial row, a point. *)
Lemma page_alternates_witness :
  let s := start_state (region xaa x00) in
  let frames := [[x01; x01; x01; xff]; [x01; x02; x03; x04; x05]; [x02; x02; x02; x1c]] in
  map is_flipped (fst (process_frames frames s)) = [true; false; true] /\
  byte_to_Z (page (shm (snd (process_frames frames s)))) = 0 /\
  frame_count (snd (process_frames frames s)) = 2.
Proof.
  destruct (page_alternates
              [[x01; x01; x01; xff]; [x01; x02; x03; x04; x05]; [x02; x02; x02; x1c]]
              (start_state (region xaa x00))) as (H1 & H2 & H3).
  - left. reflexivity.
  - cbv zeta. split; [exact H1|]. split; [exact H2 | exact H3].
Defined.

(** ** What a flipped frame leaves in the new page *)

Lemma paint_app (v : Z) (a b : list point) (f : Z -> byte) :
  paint v (a ++ b) f = paint v b (paint v a f).
Proof. unfold paint. apply fold_left_app. Qed.

Lemma paint_cons (v : Z) (p : point) (pts : list point) (f : Z -> byte) :
  paint v (p :: pts) f = paint v pts (poke v p f).
Proof. reflexivity. Qed.

Lemma point_index (v : Z) (p : point) :
  voxel_index v (byte_to_Z (pt_y p)) (byte_to_Z (pt_x p)) (byte_to_Z (pt_z p))
  = v * voxels_count + point_offset p.
Proof. apply voxel_index_offset. Qed.

(** Rows that address other voxels leave the byte as it is. *)
Lemma paint_miss (v : Z) (pts : list point) (f : Z -> byte) (j : Z) :
  Forall (fun q => v * voxels_count + point_offset q <> j) pts ->
  paint v pts f j = f j.
Proof.
  intros H. revert f. induction H as [|q pts Hq _ IH]; intros f; [reflexivity|].
  rewrite paint_cons, IH. apply poke_other. rewrite point_index. congruence.
Qed.

(** The byte at [j] after the stores depends on the byte at [j] before only. *)
Lemma paint_pointwise (v : Z) (pts : list point) (f g : Z -> byte) (j : Z) :
  f j = g j -> paint v pts f j = paint v pts g j.
Proof.
  revert f g. induction pts as [|p pts IH]; intros f g H; [exact H|].
  rewrite !paint_cons. apply IH. unfold poke. destruct (j =? _); [reflexivity | exact H].
Qed.

(** In-bounds rows with the same offset have the same coordinates. *)
Lemma point_offset_inj (p q : point) :
  valid_point p = true -> valid_point q = true ->
  point_offset p = point_offset q -> same_voxel p q = true.
Proof.
  intros Hp Hq H. apply valid_point_bounds in Hp as (Hpx & Hpy & Hpz).
  apply valid_point_bounds in Hq as (Hqx & Hqy & Hqz).
  pose proof (byte_to_Z_nonneg (pt_x p)). pose proof (byte_to_Z_nonneg (pt_y p)).
  pose proof (byte_to_Z_nonneg (pt_z p)). pose proof (byte_to_Z_nonneg (pt_x q)).
  pose proof (byte_to_Z_nonneg (pt_y q)). pose proof (byte_to_Z_nonneg (pt_z q)).
  unfold point_offset in H.
  assert (Hx : byte_to_Z (pt_x p) = byte_to_Z (pt_x q)) by lia.
  assert (Hy : byte_to_Z (pt_y p) = byte_to_Z (pt_y q)) by lia.
  assert (Hz : byte_to_Z (pt_z p) = byte_to_Z (pt_z q)) by lia.
  assert (Hinj : forall a b, byte_to_Z a = byte_to_Z b -> Byte.eqb a b = true).
  { intros a b E. apply Byte.byte_dec_lb. unfold byte_to_Z in E. apply N2Z.inj in E.
    pose proof (Byte.of_to_N a) as Ha. rewrite E, Byte.of_to_N in Ha. congruence. }
  unfold same_voxel. rewrite (Hinj _ _ Hx), (Hinj _ _ Hy), (Hinj _ _ Hz). reflexivity.
Qed.

(** The region after the iteration on a payload of whole rows. *)
Lemma frame_image (data : list byte) (s : rstate) :
  page_ok s -> whole_payload data = true ->
  let kept := filter (fun p => valid_point p = true) (rows_of data) in
  fst (process_frame data s) = Ok (Flipped (count_invalid (rows_of data)) (length kept)) /\
  buffers (shm (snd (process_frame data s)))
    = paint (write_page_of s) kept (clear_page (write_page_of s) (buffers (shm s))) /\
  byte_to_Z (page (shm (snd (process_frame data s)))) = write_page_of s.
Proof.
  intros Hp Hw. cbv zeta. destruct (whole_payload_rows _ Hw) as (pts & Hr & Hne & ->).
  destruct (process_frame_flipped _ _ _ _ (view_page_ok s Hp) Hr Hne)
    as (s1 & Hrun & Hbuf & Hpage & _).
  rewrite Hrun. cbn [fst snd]. split; [reflexivity|]. split; [exact Hbuf|].
  rewrite Hpage. apply c_uint8_write_page, Hp.
Qed.

(** X2. In a payload of whole rows processed with [page] in 0..1, take an
    in-bounds row [p] such that no later in-bounds row addresses the same
    voxel: after the iteration the byte of that voxel in the new page is
    the colour of [p], whatever earlier rows stored there. *)
Theorem last_writer_wins (data : list byte) (s : rstate)
    (earlier later : list point) (p : point) :
  page_ok s -> whole_payload data = true ->
  rows_of data = earlier ++ p :: later ->
  valid_point p = true ->
  Forall (fun q => valid_point q = true -> same_voxel q p = false) later ->
  let s' := snd (process_frame data s) in
  buffers (shm s') (byte_to_Z (page (shm s')) * voxels_count + point_offset p) = pt_pix p.
Proof.
  intros Hp Hw Hrows Hvalid Hlater. cbv zeta.
  destruct (frame_image data s Hp Hw) as (_ & Hbuf & Hpage). cbv zeta in Hbuf.
  rewrite Hpage, Hbuf, Hrows.
  rewrite filter_app, filter_valid_cons, Hvalid, paint_app, paint_cons, paint_miss.
  - rewrite <- point_index. apply poke_same.
  - apply Forall_forall. intros q Hq Heq.
    apply list_elem_of_filter in Hq as [Hqv Hq].
    rewrite Forall_forall in Hlater.
    specialize (Hlater q Hq Hqv).
    assert (Hoff : point_offset q = point_offset p) by lia.
    rewrite (point_offset_inj q p Hqv Hvalid Hoff) in Hlater. discriminate.
Qed.

(** The scenario of the specification: [(10,10,10)] written twice, with
    colours 1 and 2: the voxel holds 2. *)
Lemma last_writer_wins_witness :
  let s := start_state (region xaa x00) in
  let s' := snd (process_frame [x0a; x0a; x0a; x01; x0a; x0a; x0a; x02] s) in
  buffers (shm s') (byte_to_Z (page (shm s')) * voxels_count
                    + point_offset (mk_point x0a x0a x0a x02)) = x02.
Proof.
  apply (last_writer_wins [x0a; x0a; x0a; x01; x0a; x0a; x0a; x02]
           (start_state (region xaa x00)) [mk_point x0a x0a x0a x01] []
           (mk_point x0a x0a x0a x02)).
  - left. reflexivity.
  - reflexivity.
  - reflexivity.
  - reflexivity.
  - constructor.
Defined.

(** X3. Clear, then paint: for a payload of whole rows, the new page after
    the iteration is the stores of its in-bounds rows on a page of zeros.
    So two states that agree on [page] get the same new page from the same
    payload, whatever their pages held before. *)
Theorem new_page_from_payload_only (data : list byte) (s1 s2 : rstate) (j : Z) :
  page_ok s1 -> page (shm s2) = page (shm s1) -> whole_payload data = true ->
  in_page (write_page_of s1) j = true ->
  let kept := filter (fun p => valid_point p = true) (rows_of data) in
  buffers (shm (snd (process_frame data s1))) j
    = paint (write_page_of s1) kept (fun _ => x00) j /\
  buffers (shm (snd (process_frame data s1))) j
    = buffers (shm (snd (process_frame data s2))) j.
Proof.
  intros Hp1 Hpage Hw Hj. cbv zeta.
  assert (Hp2 : page_ok s2) by (unfold page_ok in *; rewrite Hpage; exact Hp1).
  assert (Hwp : write_page_of s2 = write_page_of s1) by (unfold write_page_of; rewrite Hpage; reflexivity).
  destruct (frame_image data s1 Hp1 Hw) as (_ & Hb1 & _).
  destruct (frame_image data s2 Hp2 Hw) as (_ & Hb2 & _).
  cbv zeta in Hb1, Hb2. rewrite Hb1, Hb2, Hwp.
  assert (Hz : forall f, clear_page (write_page_of s1) f j = x00)
    by (intros f; unfold clear_page; rewrite Hj; reflexivity).
  split.
  - apply paint_pointwise. apply Hz.
  - apply paint_pointwise. rewrite !Hz. reflexivity.
Qed.

Lemma new_page_from_payload_only_witness :
  let data := [x40; x40; x20; xff] in
  let s1 := start_state (region xaa x00) in
  let s2 := start_state (region x55 x00) in
  buffers (shm (snd (process_frame data s1))) (1 * voxels_count + 5)
    = buffers (shm (snd (process_frame data s2))) (1 * voxels_count + 5).
Proof.
  destruct (new_page_from_payload_only [x40; x40; x20; xff]
              (start_state (region xaa x00)) (start_state (region x55 x00))
              (1 * voxels_count + 5)) as [_ H].
  - left. reflexivity.
  - reflexivity.
  - reflexivity.
  - reflexivity.
  - exact H.
Defined.

Lemma filter_valid_none (pts : list point) :
  Forall (fun p => valid_point p = false) pts ->
  filter (fun p => valid_point p = true) pts = [].
Proof.
  intros H. induction H as [|p pts Hp _ IH]; [reflexivity|].
  rewrite filter_valid_cons, Hp. exact IH.
Qed.

(** X4. A payload of whole rows none of which is in bounds still reaches the
    flip: every row is counted invalid, nothing is stored, and the new
    page is all zeros. (An empty payload, in contrast, is not flipped.) *)
Theorem all_rows_invalid_blanks (data : list byte) (s : rstate) :
  page_ok s -> whole_payload data = true ->
  Forall (fun p => valid_point p = false) (rows_of data) ->
  let s' := snd (process_frame data s) in
  fst (process_frame data s) = Ok (Flipped (length (rows_of data)) 0) /\
  byte_to_Z (page (shm s')) = 1 - byte_to_Z (page (shm s)) /\
  (forall j, 0 <= j < voxels_count ->
     buffers (shm s') (byte_to_Z (page (shm s')) * voxels_count + j) = x00).
Proof.
  intros Hp Hw Hall. cbv zeta.
  destruct (frame_image data s Hp Hw) as (Hout & Hbuf & Hpage). cbv zeta in Hout, Hbuf.
  pose proof (filter_valid_none _ Hall) as Hnone.
  pose proof (kept_plus_invalid (rows_of data)) as Hsum.
  rewrite Hnone in Hout, Hbuf, Hsum. simpl in Hsum.
  rewrite Hout, Hsum. split; [reflexivity|]. split; [exact Hpage|].
  intros j Hj. rewrite Hpage, Hbuf. simpl. unfold clear_page.
  rewrite in_page_offset by exact Hj. reflexivity.
Qed.

Lemma all_rows_invalid_blanks_witness :
  let s := start_state (region xaa x00) in
  fst (process_frame [xc8; x00; x00; xaa; x00; x00; x40; x55] s) = Ok (Flipped 2 0) /\
  byte_to_Z (page (shm (snd (process_frame [xc8; x00; x00; xaa; x00; x00; x40; x55] s)))) = 1.
Proof.
  destruct (all_rows_invalid_blanks [xc8; x00; x00; xaa; x00; x00; x40; x55]
              (start_state (region xaa x00))) as (H1 & H2 & _).
  - left. reflexivity.
  - reflexivity.
  - repeat constructor.
  - split; [exact H1 | exact H2].
Defined.

(** ** The driver's fields *)

Lemma keeps_ret {A} (a : A) : keeps_control (ret a).
Proof. intros s. reflexivity. Qed.

Lemma keeps_raise {A} (e : py_exception) : keeps_control (@raise A e).
Proof. intros s. reflexivity. Qed.

Lemma keeps_bind {A B} (m : M A) (k : A -> M B) :
  keeps_control m -> (forall a, keeps_control (k a)) -> keeps_control (bind m k).
Proof.
  intros Hm Hk s. unfold bind. specialize (Hm s).
  destruct (m s) as [[a|e] s1]; simpl in *.
  - rewrite (Hk a s1). exact Hm.
  - exact Hm.
Qed.

Lemma keeps_try_except {A} (m : M A) (h : py_exception -> M A) :
  keeps_control m -> (forall e, keeps_control (h e)) -> keeps_control (try_except m h).
Proof.
  intros Hm Hh s. unfold try_except. specialize (Hm s).
  destruct (m s) as [[a|e] s1]; simpl in *.
  - exact Hm.
  - rewrite (Hh e s1). exact Hm.
Qed.

Lemma keeps_print (l : log_line) : keeps_control (print l).
Proof. intros s. reflexivity. Qed.

Lemma keeps_read_page : keeps_control read_page.
Proof. intros s. reflexivity. Qed.

Lemma keeps_write_page_field (v : Z) : keeps_control (write_page_field v).
Proof. intros s. reflexivity. Qed.

Lemma keeps_fill_zero (pg : Z) : keeps_control (fill_zero pg).
Proof. intros s. reflexivity. Qed.

Lemma keeps_view_at (i : Z) : keeps_control (view_at i).
Proof. unfold view_at. destruct (py_list_index voxel_views i); [apply keeps_ret | apply keeps_raise]. Qed.

Lemma keeps_scatter (pg : Z) (pts : list point) : keeps_control (scatter pg pts).
Proof.
  induction pts as [|p pts IH]; [apply keeps_ret|].
  simpl. apply keeps_bind; [intros s; reflexivity | intros _; exact IH].
Qed.

Lemma keeps_count_frame (n : nat) : keeps_control (count_frame n).
Proof. intros s. unfold count_frame. destruct (100 <=? _); reflexivity. Qed.

Lemma keeps_process_frame (data : list byte) : keeps_control (process_frame data).
Proof.
  unfold process_frame, process_frame_body.
  apply keeps_try_except;
    [|intros e; apply keeps_bind; [apply keeps_print | intros _; apply keeps_ret]].
  apply keeps_bind; [apply keeps_read_page | intros current_page].
  apply keeps_bind; [apply keeps_view_at | intros voxels].
  apply keeps_bind; [apply keeps_fill_zero | intros _].
  destruct (length data / 4 =? 0)%nat; [apply keeps_ret|].
  rewrite Tauto.if_same.
  apply keeps_bind; [destruct (reshape4 data); [apply keeps_ret | apply keeps_raise] | intros point_data].
  apply keeps_bind.
  { destruct (0 <? count_invalid point_data)%nat; [|apply keeps_ret].
    apply keeps_bind; [|intros _; apply keeps_ret].
    destruct (10 <? count_invalid point_data)%nat; [apply keeps_print | apply keeps_ret]. }
  intros kept.
  apply keeps_bind; [destruct (0 <? length kept)%nat; [apply keeps_scatter | apply keeps_ret] | intros _].
  apply keeps_bind; [apply keeps_write_page_field | intros _].
  apply keeps_bind; [apply keeps_count_frame | intros _; apply keeps_ret].
Qed.

(** X5. Whatever the payloads and whatever the region holds, the processing
    thread leaves [bpc], [flags], [rpm] and [uspf] as the driver set them. *)
Theorem control_fields_untouched (frames : list (list byte)) (s : rstate) :
  control_fields (snd (process_frames frames s)) = control_fields s.
Proof.
  revert s. induction frames as [|data rest IH]; intros s; [reflexivity|].
  simpl. pose proof (keeps_process_frame data s) as H.
  destruct (process_frame data s) as [[o|e] s1]; cbn [snd] in *.
  - specialize (IH s1). destruct (process_frames rest s1) as [os s2]. cbn [snd] in *. congruence.
  - exact H.
Qed.

(** ** A [page] byte outside 0..1 *)

Lemma no_view_from (s : rstate) :
  4 <= byte_to_Z (page (shm s)) -> py_list_index voxel_views (write_page_of s) = None.
Proof.
  intros H. unfold py_list_index, voxel_views, write_page_of. simpl length.
  destruct (0 <=? 1 - byte_to_Z (page (shm s))) eqn:E1; [apply Z.leb_le in E1; lia|].
  destruct (- Z.of_nat 2 <=? 1 - byte_to_Z (page (shm s))) eqn:E2; [apply Z.leb_le in E2; lia|].
  reflexivity.
Qed.

(** X6. When [page] holds 4 or more, [voxel_views[1 - page]] raises
    [IndexError] in every iteration: each payload fails, and the region,
    the frame counter and [page] itself stay as they are, for any sequence
    of payloads. *)
Theorem high_page_value_wedges (frames : list (list byte)) (s : rstate) :
  4 <= byte_to_Z (page (shm s)) ->
  fst (process_frames frames s) = map (fun _ => Failed IndexError) frames /\
  shm (snd (process_frames frames s)) = shm s /\
  frame_count (snd (process_frames frames s)) = frame_count s.
Proof.
  revert s. induction frames as [|data rest IH]; intros s H; [auto|].
  simpl. rewrite (process_frame_no_view data s (no_view_from s H)).
  match goal with |- context [process_frames rest ?s1] =>
    destruct (IH s1 H) as (IH1 & IH2 & IH3); destruct (process_frames rest s1) as [os s2] end.
  cbn [fst snd] in *. rewrite IH1, IH2, IH3. auto.
Qed.

Lemma high_page_value_wedges_witness :
  let s := start_state (region xaa x07) in
  fst (process_frames [[x01; x01; x01; xff]; []] s) = [Failed IndexError; Failed IndexError] /\
  shm (snd (process_frames [[x01; x01; x01; xff]; []] s)) = shm s.
Proof.
  destruct (high_page_value_wedges [[x01; x01; x01; xff]; []] (start_state (region xaa x07)))
    as (H1 & H2 & _).
  - vm_compute. discriminate.
  - split; [exact H1 | exact H2].
Defined.

(** X7. When [page] holds 2 or 3, [1 - page] is -1 or -2, which Python
    takes as an index from the end of [voxel_views]: a payload of whole
    rows is drawn into page 1 or page 0, and [page] is then written with
    the low eight bits of [1 - page], 255 or 254, a value of at least 4:
    the state in which every later payload fails. *)
Theorem page_two_or_three (data : list byte) (s : rstate) :
  byte_to_Z (page (shm s)) = 2 \/ byte_to_Z (page (shm s)) = 3 ->
  whole_payload data = true ->
  let s1 := snd (process_frame data s) in
  let v := 3 - byte_to_Z (page (shm s)) in
  is_flipped_result (fst (process_frame data s)) = true /\
  buffers (shm s1)
    = paint v (filter (fun p => valid_point p = true) (rows_of data))
        (clear_page v (buffers (shm s))) /\
  byte_to_Z (page (shm s1)) = 257 - byte_to_Z (page (shm s)) /\
  py_list_index voxel_views (write_page_of s1) = None.
Proof.
  intros Hpg Hw. cbv zeta.
  destruct (whole_payload_rows _ Hw) as (pts & Hr & Hne & ->).
  assert (Hv : py_list_index voxel_views (write_page_of s)
               = Some (3 - byte_to_Z (page (shm s)))).
  { unfold write_page_of. destruct Hpg as [-> | ->]; reflexivity. }
  destruct (process_frame_flipped _ _ _ _ Hv Hr Hne) as (s1 & Hrun & Hbuf & Hpage & _).
  rewrite Hrun. cbn [fst snd].
  assert (Hnew : byte_to_Z (page (shm s1)) = 257 - byte_to_Z (page (shm s))).
  { rewrite Hpage, c_uint8_byte_to_Z. unfold write_page_of.
    destruct Hpg as [-> | ->]; reflexivity. }
  split; [reflexivity|]. split; [exact Hbuf|]. split; [exact Hnew|].
  apply no_view_from. lia.
Qed.

Lemma page_two_or_three_witness :
  let s := start_state (region xaa x02) in
  let s1 := snd (process_frame [x01; x01; x01; xff] s) in
  byte_to_Z (page (shm s1)) = 255 /\
  py_list_index voxel_views (write_page_of s1) = None.
Proof.
  destruct (page_two_or_three [x01; x01; x01; xff]
              (start_state (region xaa x02))) as (_ & _ & H1 & H2).
  - left. reflexivity.
  - reflexivity.
  - split; [exact H1 | exact H2].
Defined.

(** ** A payload with a partial row *)

(** X8. With [page] in 0..1, a payload whose length is not a multiple of
    four is never flipped, but the other page has been set to zeros before
    the length is looked at. With fewer than four bytes the iteration ends
    at [continue] and prints nothing; otherwise [reshape] raises and the
    error is printed. *)
Theorem partial_row_clears_idle_page (data : list byte) (s : rstate) :
  page_ok s -> (length data mod 4 <> 0)%nat ->
  let s' := snd (process_frame data s) in
  fst (process_frame data s)
    = Ok (if (length data <? 4)%nat then Skipped else Failed ValueError) /\
  (forall j, 0 <= j < voxels_count ->
     buffers (shm s') (write_page_of s * voxels_count + j) = x00) /\
  page (shm s') = page (shm s) /\
  stdout s' = stdout s ++ (if (length data <? 4)%nat then [] else [LogFrameError ValueError]).
Proof.
  intros Hp Hm. cbv zeta. pose proof (view_page_ok s Hp) as Hv.
  assert (Hz : forall j, 0 <= j < voxels_count ->
            clear_page (write_page_of s) (buffers (shm s)) (write_page_of s * voxels_count + j) = x00).
  { intros j Hj. unfold clear_page. rewrite in_page_offset by exact Hj. reflexivity. }
  destruct (length data <? 4)%nat eqn:E.
  - apply Nat.ltb_lt in E. rewrite (process_frame_skipped _ _ _ Hv E). cbn [fst snd].
    split; [reflexivity|]. split; [exact Hz|]. split; [reflexivity|].
    simpl. rewrite app_nil_r. reflexivity.
  - apply Nat.ltb_ge in E. rewrite (process_frame_partial _ _ _ Hv E Hm). cbn [fst snd].
    split; [reflexivity|]. split; [exact Hz|]. split; reflexivity.
Qed.

Lemma partial_row_clears_idle_page_witness :
  let s := start_state (region xaa x01) in
  fst (process_frame [x01; x02; x03; x04; x05] s) = Ok (Failed ValueError) /\
  buffers (shm (snd (process_frame [x01; x02; x03; x04; x05] s))) (0 * voxels_count + 9) = x00.
Proof.
  destruct (partial_row_clears_idle_page [x01; x02; x03; x04; x05]
              (start_state (region xaa x01))) as (H1 & H2 & _).
  - right. reflexivity.
  - simpl. discriminate.
  - split; [exact H1|]. apply (H2 9). vm_compute. split; [discriminate | reflexivity].
Defined.

(** ** The handler on a stream of frames *)

Lemma readexactly_inv (n : Z) (input a b : list byte) :
  readexactly n input = Some (a, b) -> 0 <= n ->
  input = a ++ b /\ Z.of_nat (length a) = n.
Proof.
  intros H Hn. destruct (readexactly_length _ _ _ _ Hn H) as [Hlen _].
  unfold readexactly in H. destruct (n <=? Z.of_nat (length input)); [|discriminate].
  inversion H; subst. rewrite take_drop. split; [reflexivity | lia].
Qed.

Lemma c_uint8_of_byte (b : byte) : c_uint8 (byte_to_Z b) = b.
Proof.
  unfold c_uint8, byte_to_Z. pose proof (Byte.to_N_bounded b).
  rewrite Z.mod_small by lia. rewrite N2Z.id, Byte.of_to_N. reflexivity.
Qed.

Lemma c_uint8_low_byte (v : Z) (b : byte) : v mod 256 = byte_to_Z b -> c_uint8 v = b.
Proof.
  intros H. unfold c_uint8. rewrite H. unfold byte_to_Z.
  rewrite N2Z.id, Byte.of_to_N. reflexivity.
Qed.

(** [struct.pack('>I', struct.unpack('!I', b)[0])] is [b]. *)
Lemma pack_unpack (b : list byte) (n : Z) :
  unpack_u32_be b = Some n -> pack_u32_be n = b /\ 0 <= n < 4294967296.
Proof.
  unfold unpack_u32_be. destruct b as [|b0 [|b1 [|b2 [|b3 [|]]]]]; try discriminate.
  intros [= <-].
  pose proof (Byte.to_N_bounded b0). pose proof (Byte.to_N_bounded b1).
  pose proof (Byte.to_N_bounded b2). pose proof (Byte.to_N_bounded b3).
  assert (H0' : 0 <= byte_to_Z b0 < 256) by (unfold byte_to_Z; lia).
  assert (H1' : 0 <= byte_to_Z b1 < 256) by (unfold byte_to_Z; lia).
  assert (H2' : 0 <= byte_to_Z b2 < 256) by (unfold byte_to_Z; lia).
  assert (H3' : 0 <= byte_to_Z b3 < 256) by (unfold byte_to_Z; lia).
  split; [|lia]. unfold pack_u32_be.
  set (n := ((byte_to_Z b0 * 256 + byte_to_Z b1) * 256 + byte_to_Z b2) * 256 + byte_to_Z b3).
  assert (E0 : c_uint8 (n / 16777216) = b0)
    by (apply c_uint8_low_byte; subst n; Z.to_euclidean_division_equations; lia).
  assert (E1 : c_uint8 (n / 65536) = b1)
    by (apply c_uint8_low_byte; subst n; Z.to_euclidean_division_equations; lia).
  assert (E2 : c_uint8 (n / 256) = b2)
    by (apply c_uint8_low_byte; subst n; Z.to_euclidean_division_equations; lia).
  assert (E3 : c_uint8 n = b3)
    by (apply c_uint8_low_byte; subst n; Z.to_euclidean_division_equations; lia).
  rewrite E0, E1, E2, E3. reflexivity.
Qed.

(** X9. Whatever bytes arrive, an iteration of the handler that leaves the
    connection open has read exactly one frame as the producers build it:
    the signature, a length [L] of at most 10,000,000 in big-endian, and
    [L] bytes; the queue got the decompressed payload if there is one, and
    is unchanged otherwise. *)
Theorem open_iteration_read_a_frame (gzip_decompress : list byte -> gz_result)
    (input rest : list byte) (q q' : list (list byte)) :
  handle_iteration gzip_decompress input q = (Open rest, q') ->
  exists compressed,
    input = wire_frame compressed ++ rest /\
    Z.of_nat (length compressed) <= max_packet_length /\
    q' = match gzip_decompress compressed with
         | GzOk d => deque_append frame_queue_maxlen q d
         | _ => q
         end.
Proof.
  unfold handle_iteration. intros H.
  destruct (readexactly 8 input) as [[header input1]|] eqn:E1; [|discriminate].
  destruct (bytes_eqb (take 4 header) signature) eqn:Es; [|discriminate]. cbn [negb] in H.
  destruct (unpack_u32_be (drop 4 header)) as [L|] eqn:EL; [|discriminate].
  destruct (max_packet_length <? L) eqn:Emax; [discriminate|].
  destruct (readexactly L input1) as [[c input2]|] eqn:E2; [|discriminate].
  apply Z.ltb_ge in Emax. apply bytes_eqb_eq in Es.
  destruct (pack_unpack _ _ EL) as [Hpack HL].
  destruct (readexactly_inv _ _ _ _ E1) as [-> Hlen8]; [lia|].
  destruct (readexactly_inv _ _ _ _ E2) as [-> HlenL]; [lia|].
  exists c.
  assert (Hrest : rest = input2 /\ q' = match gzip_decompress c with
                                        | GzOk d => deque_append frame_queue_maxlen q d
                                        | _ => q
                                        end).
  { destruct (gzip_decompress c); inversion H; auto. }
  destruct Hrest as [-> ->]. split; [|split; [lia | reflexivity]].
  unfold wire_frame. rewrite HlenL, Hpack, <- Es, <- !app_assoc.
  rewrite (app_assoc (take 4 header)), take_drop. reflexivity.
Qed.

Lemma open_iteration_read_a_frame_witness :
  exists compressed,
    wire_frame [x1f; x8b; x01; x07] ++ [xff] = wire_frame compressed ++ [xff] /\
    Z.of_nat (length compressed) <= max_packet_length /\
    [[x07]] = match stored_decompress compressed with
              | GzOk d => deque_append frame_queue_maxlen [] d
              | _ => []
              end.
Proof.
  apply (open_iteration_read_a_frame stored_decompress
           (wire_frame [x1f; x8b; x01; x07] ++ [xff]) [xff] [] [[x07]]).
  reflexivity.
Defined.

Lemma handle_client_eof (gzip_decompress : list byte -> gz_result) (q : list (list byte)) :
  handle_client gzip_decompress [] q = (IncompleteRead, q).
Proof. rewrite handle_client_step. reflexivity. Qed.

Lemma stream_of_cons (c : list byte) (cs : list (list byte)) :
  stream_of (c :: cs) = wire_frame c ++ stream_of cs.
Proof. reflexivity. Qed.

(** The handler goes through a stream of frames within the limit and goes
    on with what follows them. *)
Lemma handle_client_stream (gzip_decompress : list byte -> gz_result)
    (cs : list (list byte)) (tail : list byte) (q : list (list byte)) :
  Forall (fun c => Z.of_nat (length c) <= max_packet_length) cs ->
  handle_client gzip_decompress (stream_of cs ++ tail) q
  = handle_client gzip_decompress tail (queue_after gzip_decompress cs q).
Proof.
  intros H. revert q. induction H as [|c cs Hc _ IH]; intros q; [reflexivity|].
  rewrite stream_of_cons, <- app_assoc, handle_client_step.
  rewrite wire_frame_app, handle_iteration_frame by auto.
  simpl queue_after.
  destruct (gzip_decompress c); apply IH.
Qed.

Lemma decompressed_of_cons (gzip_decompress : list byte -> gz_result)
    (c : list byte) (cs : list (list byte)) :
  decompressed_of gzip_decompress (c :: cs)
  = match gzip_decompress c with
    | GzOk d => d :: decompressed_of gzip_decompress cs
    | _ => decompressed_of gzip_decompress cs
    end.
Proof.
  unfold decompressed_of. simpl. destruct (gzip_decompress c); reflexivity.
Qed.

(** From a queue of at most one payload, the queue after a run of frames
    holds the last payload that decompressed, or what it held if none did. *)
Lemma queue_after_last (gzip_decompress : list byte -> gz_result)
    (cs : list (list byte)) (q : list (list byte)) :
  (length q <= frame_queue_maxlen)%nat ->
  queue_after gzip_decompress cs q
  = match last (decompressed_of gzip_decompress cs) with
    | Some d => [d]
    | None => q
    end.
Proof.
  revert q. induction cs as [|c cs IH]; intros q Hq; [reflexivity|].
  rewrite decompressed_of_cons.
  change (queue_after gzip_decompress (c :: cs) q)
    with (queue_after gzip_decompress cs
            (match gzip_decompress c with
             | GzOk d => deque_append frame_queue_maxlen q d
             | _ => q
             end)).
  destruct (gzip_decompress c) as [d| |]; try (apply IH, Hq).
  assert (Hd : deque_append frame_queue_maxlen q d = [d]).
  { pose proof (offer_replaces q d Hq) as Ho. unfold offer in Ho. congruence. }
  rewrite Hd, IH by (simpl; unfold frame_queue_maxlen; lia).
  rewrite last_cons. destruct (last (decompressed_of gzip_decompress cs)); reflexivity.
Qed.

(** X10. A connection that sends whole frames within the limit, one after
    the other, and then closes: the handler ends with
    [IncompleteReadError] at the next header, having shut nothing down
    before; from a queue of at most one payload, the queue then holds
    exactly the payload of the last frame that decompressed (or what it
    held, if none did). *)
Theorem handler_on_stream (gzip_decompress : list byte -> gz_result)
    (cs : list (list byte)) (q : list (list byte)) :
  Forall (fun c => Z.of_nat (length c) <= max_packet_length) cs ->
  (length q <= frame_queue_maxlen)%nat ->
  handle_client gzip_decompress (stream_of cs) q
  = (IncompleteRead,
     match last (decompressed_of gzip_decompress cs) with
     | Some d => [d]
     | None => q
     end).
Proof.
  intros Hcs Hq. rewrite <- (app_nil_r (stream_of cs)).
  rewrite handle_client_stream by exact Hcs.
  rewrite handle_client_eof, queue_after_last by exact Hq. reflexivity.
Qed.

(** A good frame, three bytes that do not decompress, a good frame. *)
Lemma handler_on_stream_witness :
  handle_client stored_decompress
    (stream_of [[x1f; x8b; x01; x07]; [x00; x01; x02]; [x1f; x8b; x02; x08; x09]]) []
  = (IncompleteRead, [[x08; x09]]).
Proof.
  apply (handler_on_stream stored_decompress
           [[x1f; x8b; x01; x07]; [x00; x01; x02]; [x1f; x8b; x02; x08; x09]] []).
  - repeat constructor; vm_compute; discriminate.
  - simpl. unfold frame_queue_maxlen. lia.
Defined.

(** ** The queue never holds more than one payload *)

Lemma handle_iteration_queue (gzip_decompress : list byte -> gz_result)
    (input : list byte) (q : list (list byte)) :
  (length q <= frame_queue_maxlen)%nat ->
  (length (snd (handle_iteration gzip_decompress input q)) <= frame_queue_maxlen)%nat.
Proof.
  intros Hq. unfold handle_iteration.
  destruct (readexactly 8 input) as [[header input1]|]; [|exact Hq].
  destruct (negb _); [exact Hq|].
  destruct (unpack_u32_be _) as [L|]; [|exact Hq].
  destruct (max_packet_length <? L); [exact Hq|].
  destruct (readexactly L input1) as [[c input2]|]; [|exact Hq].
  destruct (gzip_decompress c) as [d| |]; try exact Hq.
  cbn [snd]. rewrite (offer_replaces q d Hq). simpl. unfold frame_queue_maxlen. lia.
Qed.

(** X11. Whatever the connections receive and in whatever order their
    handlers run, the shared queue never holds more than one payload. *)
Theorem queue_bounded_under_any_schedule (gzip_decompress : list byte -> gz_result)
    (schedule : list nat) (srv : server) :
  (length (frame_queue srv) <= frame_queue_maxlen)%nat ->
  (length (frame_queue (run_schedule gzip_decompress schedule srv)) <= frame_queue_maxlen)%nat.
Proof.
  revert srv. induction schedule as [|i rest IH]; intros srv Hq; [exact Hq|].
  simpl. apply IH. unfold serve.
  destruct (conns srv !! i) as [[input|why]|]; try exact Hq.
  pose proof (handle_iteration_queue gzip_decompress input (frame_queue srv) Hq) as H.
  destruct (handle_iteration gzip_decompress input (frame_queue srv)) as [c q']. exact H.
Qed.

(** Two connections, each with one frame, served in turn. *)
Lemma queue_bounded_under_any_schedule_witness :
  let srv := mk_server
    (<[0%nat := Open (wire_frame [x1f; x8b; x01; x07])]>
       (<[1%nat := Open (wire_frame [x1f; x8b; x01; x09])]> ∅)) [] in
  (length (frame_queue (run_schedule stored_decompress [0%nat; 1%nat; 0%nat] srv))
   <= frame_queue_maxlen)%nat.
Proof.
  apply (queue_bounded_under_any_schedule stored_decompress).
  simpl. lia.
Defined.

(** * The producer *)

(** ** [bresenham_3d] *)

(** A positive error term means that the coordinate has not reached its
    target yet. *)
Lemma error_positive_room (k j d da : Z) :
  0 < 2 * (k + 1) * d - (2 * j + 1) * da ->
  0 <= j <= d -> 0 <= k -> k + 1 <= da -> j + 1 <= d.
Proof.
  intros Herr Hj Hk Hda.
  destruct (Z.eq_dec j d) as [->|Hne]; [|lia].
  exfalso. assert (H : 2 * (k + 1) * d - (2 * d + 1) * da = 2 * d * (k + 1 - da) - da) by ring.
  rewrite H in Herr. assert (2 * d * (k + 1 - da) <= 0) by nia. lia.
Qed.

(** When the driving axis has arrived, so has the other coordinate. *)
Lemma error_at_end (j d da : Z) :
  0 <= j <= d -> d <= da ->
  (0 < da -> -2 * da < 2 * (da + 1) * d - (2 * j + 1) * da - 2 * d <= 0) ->
  j = d.
Proof.
  intros Hj Hd Hr. destruct (Z.eq_dec da 0) as [->|Hne]; [lia|].
  assert (Hpos : 0 < da) by lia. specialize (Hr Hpos).
  assert (H : 2 * (da + 1) * d - (2 * j + 1) * da - 2 * d = da * (2 * d - 2 * j - 1)) by ring.
  rewrite H in Hr. destruct Hr as [H1 H2].
  assert (2 * d - 2 * j - 1 <= 0) by nia.
  assert (-2 < 2 * d - 2 * j - 1) by nia. lia.
Qed.

(** The loop, from any state that the straight line from the start has
    reached: it ends within [r] more iterations, where [r] is the distance
    left along the driving axis, and what it appends is a walk to the
    target position. [k], [jb] and [jc] count the steps taken so far along
    the three axes. *)
Lemma line_loop_walk (mk : Z -> Z -> Z -> Producer.voxel)
    (sa sb sc da db dc a1 b1 c1 : Z) :
  (sa = 1 \/ sa = -1) -> 0 <= db <= da -> 0 <= dc <= da ->
  forall (r fuel : nat) (a b c k jb jc err_b err_c : Z),
    (r < fuel)%nat ->
    a1 = a + sa * Z.of_nat r -> da = k + Z.of_nat r -> 0 <= k ->
    b1 = b + sb * (db - jb) -> 0 <= jb <= db ->
    err_b = 2 * (k + 1) * db - (2 * jb + 1) * da ->
    (0 < da -> -2 * da < err_b - 2 * db <= 0) ->
    c1 = c + sc * (dc - jc) -> 0 <= jc <= dc ->
    err_c = 2 * (k + 1) * dc - (2 * jc + 1) * da ->
    (0 < da -> -2 * da < err_c - 2 * dc <= 0) ->
    exists l,
      Producer.line_loop fuel mk a b c a1 sa sb sc da db dc err_b err_c
        = Some (map (on_triple mk) l) /\
      length l = r /\
      Producer.Walk sa sb sc (a, b, c) l (a1, b1, c1).
Proof.
  intros Hsa Hdb Hdc. induction r as [|r IH];
    intros fuel a b c k jb jc err_b err_c Hfuel Ha Hda Hk Hb Hjb Heb Hrb Hc Hjc Hec Hrc;
    (destruct fuel as [|fuel]; [lia|]); cbn [Producer.line_loop].
  - assert (Haa : a1 = a) by lia. rewrite Haa, Z.eqb_refl.
    assert (Hkk : k = da) by lia.
    assert (jb = db).
    { apply (error_at_end jb db da); [lia | lia |].
      intros Hp. specialize (Hrb Hp). rewrite Heb, Hkk in Hrb. exact Hrb. }
    assert (jc = dc).
    { apply (error_at_end jc dc da); [lia | lia |].
      intros Hp. specialize (Hrc Hp). rewrite Hec, Hkk in Hrc. exact Hrc. }
    exists []. split; [reflexivity|]. split; [reflexivity|].
    replace b1 with b by lia. replace c1 with c by lia. constructor.
  - assert (Hne : (a =? a1) = false) by (apply Z.eqb_neq; lia). rewrite Hne.
    assert (Hda1 : k + 1 <= da) by lia. assert (Hpos : 0 < da) by lia.
    specialize (Hrb Hpos). specialize (Hrc Hpos).
    set (b' := if 0 <? err_b then b + sb else b).
    set (eb' := if 0 <? err_b then err_b - 2 * da else err_b).
    set (c' := if 0 <? err_c then c + sc else c).
    set (ec' := if 0 <? err_c then err_c - 2 * da else err_c).
    set (jb' := if 0 <? err_b then jb + 1 else jb).
    set (jc' := if 0 <? err_c then jc + 1 else jc).
    assert (Hb' : (b' = b \/ b' = b + sb) /\ b1 = b' + sb * (db - jb') /\ 0 <= jb' <= db /\
                  eb' + 2 * db = 2 * (k + 1 + 1) * db - (2 * jb' + 1) * da /\
                  -2 * da < eb' + 2 * db - 2 * db <= 0).
    { subst b' eb' jb'. destruct (0 <? err_b) eqn:E.
      - apply Z.ltb_lt in E.
        assert (jb + 1 <= db) by (apply (error_positive_room k jb db da); lia).
        repeat split; lia.
      - apply Z.ltb_ge in E. repeat split; lia. }
    assert (Hc' : (c' = c \/ c' = c + sc) /\ c1 = c' + sc * (dc - jc') /\ 0 <= jc' <= dc /\
                  ec' + 2 * dc = 2 * (k + 1 + 1) * dc - (2 * jc' + 1) * da /\
                  -2 * da < ec' + 2 * dc - 2 * dc <= 0).
    { subst c' ec' jc'. destruct (0 <? err_c) eqn:E.
      - apply Z.ltb_lt in E.
        assert (jc + 1 <= dc) by (apply (error_positive_room k jc dc da); lia).
        repeat split; lia.
      - apply Z.ltb_ge in E. repeat split; lia. }
    destruct Hb' as (Hb1 & Hb2 & Hb3 & Hb4 & Hb5).
    destruct Hc' as (Hc1 & Hc2 & Hc3 & Hc4 & Hc5).
    destruct (IH fuel (a + sa) b' c' (k + 1) jb' jc' (eb' + 2 * db) (ec' + 2 * dc))
      as (l & Hrun & Hlen & Hwalk); try lia; try (intros _; assumption).
    rewrite Hrun. exists ((a, b, c) :: l). split; [reflexivity|]. split; [simpl; lia|].
    apply (Producer.Walk_step sa sb sc a b c b' c'); assumption.
Qed.

Lemma walk_reach (sa sb sc : Z) (p q : Z * Z * Z) (l : list (Z * Z * Z)) :
  Producer.Walk sa sb sc p l q ->
  exists m o : Z,
    0 <= m /\ 0 <= o /\
    q = (fst (fst p) + sa * Z.of_nat (length l), snd (fst p) + sb * m, snd p + sc * o).
Proof.
  intros H. induction H as [[[a b] c] | a b c b' c' l q Hb Hc _ IH].
  - exists 0, 0. simpl. repeat split; try lia. f_equal; [f_equal|]; lia.
  - destruct IH as (m & o & Hm & Ho & ->). cbn [fst snd length].
    exists (if Z.eq_dec b' b then m else m + 1), (if Z.eq_dec c' c then o else o + 1).
    destruct (Z.eq_dec b' b), (Z.eq_dec c' c); repeat split; try lia; (f_equal; [f_equal|]; lia).
Qed.

Lemma walk_head (sa sb sc : Z) (p q : Z * Z * Z) (l : list (Z * Z * Z)) :
  Producer.Walk sa sb sc p l q -> head (l ++ [q]) = Some p.
Proof. intros H. destruct H; reflexivity. Qed.

Lemma walk_chain (sa sb sc : Z) (p q : Z * Z * Z) (l : list (Z * Z * Z)) :
  (sa = 1 \/ sa = -1) -> (sb = 1 \/ sb = -1) -> (sc = 1 \/ sc = -1) ->
  Producer.Walk sa sb sc p l q -> Producer.chain (l ++ [q]).
Proof.
  intros Hsa Hsb Hsc H. induction H as [p | a b c b' c' l q Hb Hc Hw IH]; [exact I|].
  pose proof (walk_head _ _ _ _ _ _ Hw) as Hh.
  cbn [app]. destruct (l ++ [q]) as [|x tl]; [discriminate|].
  injection Hh as ->. split; [|exact IH].
  unfold Producer.adjacent. repeat split; try lia.
  intros E. injection E as E _ _. lia.
Qed.

Lemma walk_box (sa sb sc : Z) (p q : Z * Z * Z) (l : list (Z * Z * Z)) :
  (sa = 1 \/ sa = -1) -> (sb = 1 \/ sb = -1) -> (sc = 1 \/ sc = -1) ->
  Producer.Walk sa sb sc p l q -> Forall (Producer.in_box p q) (l ++ [q]).
Proof.
  intros Hsa Hsb Hsc H. induction H as [[[a b] c] | a b c b' c' l q Hb Hc Hw IH].
  - constructor; [|constructor]. unfold Producer.in_box. lia.
  - destruct (walk_reach _ _ _ _ _ _ Hw) as (m & o & Hm & Ho & Hq). cbn [fst snd] in Hq.
    cbn [app]. constructor.
    + subst q. unfold Producer.in_box.
      pose proof (Nat2Z.is_nonneg (length l)).
      destruct Hsa as [-> | ->], Hsb as [-> | ->], Hsc as [-> | ->]; lia.
    + eapply Forall_impl; [exact IH|]. intros [[x y] z]. subst q.
      unfold Producer.in_box. pose proof (Nat2Z.is_nonneg (length l)).
      destruct Hsa as [-> | ->], Hsb as [-> | ->], Hsc as [-> | ->]; lia.
Qed.

Lemma chain_map (f : Producer.voxel -> Producer.voxel) (pts : list Producer.voxel) :
  (forall p q, Producer.adjacent p q -> Producer.adjacent (f p) (f q)) ->
  Producer.chain pts -> Producer.chain (map f pts).
Proof.
  intros Hf. induction pts as [|p [|q tl] IH]; [auto | auto |].
  intros [Ha Hc]. split; [apply Hf, Ha | apply IH, Hc].
Qed.

(** What a loop of [bresenham_3d] and the final [append] build, for a
    driving axis [a] and an ordering [mk] of the coordinates that keeps
    boxes and neighbours. *)
Lemma line_built (mk : Z -> Z -> Z -> Producer.voxel) (sa sb sc : Z)
    (p q : Z * Z * Z) (l : list (Z * Z * Z)) :
  (sa = 1 \/ sa = -1) -> (sb = 1 \/ sb = -1) -> (sc = 1 \/ sc = -1) ->
  (forall u v : Z * Z * Z, Producer.adjacent u v ->
     Producer.adjacent (on_triple mk u) (on_triple mk v)) ->
  (forall u v w : Z * Z * Z, Producer.in_box u v w ->
     Producer.in_box (on_triple mk u) (on_triple mk v) (on_triple mk w)) ->
  Producer.Walk sa sb sc p l q ->
  let pts := map (on_triple mk) l ++ [on_triple mk q] in
  length pts = S (length l) /\
  head pts = Some (on_triple mk p) /\
  last pts = Some (on_triple mk q) /\
  Producer.chain pts /\
  Forall (Producer.in_box (on_triple mk p) (on_triple mk q)) pts.
Proof.
  intros Hsa Hsb Hsc Hadj Hbox Hw. cbv zeta.
  assert (E : map (on_triple mk) l ++ [on_triple mk q] = map (on_triple mk) (l ++ [q]))
    by (rewrite map_app; reflexivity).
  split; [rewrite length_app, length_map; simpl; lia|].
  split; [rewrite E; destruct Hw; reflexivity|].
  split; [apply last_snoc|].
  rewrite E. split.
  - apply chain_map; [exact Hadj | apply (walk_chain sa sb sc p q l); assumption].
  - apply Forall_map. eapply Forall_impl; [apply (walk_box sa sb sc p q l); assumption|].
    intros w Hwb. apply Hbox, Hwb.
Qed.

Lemma sign_toward (u v : Z) :
  let s := if u <? v then 1 else -1 in
  (s = 1 \/ s = -1) /\ v = u + s * Z.of_nat (Z.to_nat (Z.abs (v - u))) /\
  v = u + s * (Z.abs (v - u) - 0).
Proof.
  cbv zeta. destruct (u <? v) eqn:E; [apply Z.ltb_lt in E | apply Z.ltb_ge in E]; lia.
Qed.

(** X12. [bresenham_3d] returns for all end points: each of its loops
    ends. The list it returns starts at [(x0, y0, z0)] and ends at
    [(x1, y1, z1)], has one position more than the largest of the three
    distances, every position is a neighbour of the next, and all lie in
    the box spanned by the two end points. So between two end points that
    [is_in_bounds] accepts every position is in bounds: the lines that
    [voxelize_object] draws between visible vertices need no bounds check. *)
Theorem bresenham_3d_line (x0 y0 z0 x1 y1 z1 : Z) :
  exists pts,
    Producer.bresenham_3d x0 y0 z0 x1 y1 z1 = Some pts /\
    Z.of_nat (length pts)
      = Z.max (Z.abs (x1 - x0)) (Z.max (Z.abs (y1 - y0)) (Z.abs (z1 - z0))) + 1 /\
    head pts = Some (x0, y0, z0) /\
    last pts = Some (x1, y1, z1) /\
    Producer.chain pts /\
    Forall (Producer.in_box (x0, y0, z0) (x1, y1, z1)) pts /\
    (Producer.is_in_bounds x0 y0 z0 = true -> Producer.is_in_bounds x1 y1 z1 = true ->
     Forall (fun p => Producer.voxel_in_bounds p = true) pts).
Proof.
  enough (Hline : exists pts,
    Producer.bresenham_3d x0 y0 z0 x1 y1 z1 = Some pts /\
    Z.of_nat (length pts)
      = Z.max (Z.abs (x1 - x0)) (Z.max (Z.abs (y1 - y0)) (Z.abs (z1 - z0))) + 1 /\
    head pts = Some (x0, y0, z0) /\
    last pts = Some (x1, y1, z1) /\
    Producer.chain pts /\
    Forall (Producer.in_box (x0, y0, z0) (x1, y1, z1)) pts).
  { destruct Hline as (pts & Hrun & Hlen & Hhead & Hlast & Hchain & Hbox).
    exists pts. repeat (split; [assumption|]).
    intros H0 H1. eapply Forall_impl; [exact Hbox|]. intros [[x y] z].
    unfold Producer.in_box, Producer.voxel_in_bounds, Producer.is_in_bounds in *.
    rewrite !andb_true_iff, !Z.leb_le, !Z.ltb_lt in *. lia. }
  unfold Producer.bresenham_3d.
  set (dx := Z.abs (x1 - x0)). set (dy := Z.abs (y1 - y0)). set (dz := Z.abs (z1 - z0)).
  destruct (sign_toward x0 x1) as (Hsx & Hx1 & Hx2).
  destruct (sign_toward y0 y1) as (Hsy & Hy1 & Hy2).
  destruct (sign_toward z0 z1) as (Hsz & Hz1 & Hz2).
  cbv zeta in *. fold dx in Hx1, Hx2. fold dy in Hy1, Hy2. fold dz in Hz1, Hz2.
  set (sx := if x0 <? x1 then 1 else -1) in *.
  set (sy := if y0 <? y1 then 1 else -1) in *.
  set (sz := if z0 <? z1 then 1 else -1) in *.
  assert (Hdx : 0 <= dx) by (subst dx; lia).
  assert (Hdy : 0 <= dy) by (subst dy; lia).
  assert (Hdz : 0 <= dz) by (subst dz; lia).
  destruct ((dy <=? dx) && (dz <=? dx)) eqn:Ex;
    [|destruct ((dx <=? dy) && (dz <=? dy)) eqn:Ey].
  - apply andb_true_iff in Ex as [E1 E2]. apply Z.leb_le in E1. apply Z.leb_le in E2.
    destruct (line_loop_walk (fun a b c => (a, b, c)) sx sy sz dx dy dz x1 y1 z1
                Hsx (conj Hdy E1) (conj Hdz E2)
                (Z.to_nat dx) (S (Z.to_nat dx)) x0 y0 z0 0 0 0 (2 * dy - dx) (2 * dz - dx))
      as (l & Hrun & Hlen & Hw); try lia.
    rewrite Hrun.
    destruct (line_built (fun a b c => (a, b, c)) sx sy sz (x0, y0, z0) (x1, y1, z1) l Hsx Hsy Hsz)
      as (H1 & H2 & H3 & H4 & H5); [| |exact Hw|].
    + intros [[? ?] ?] [[? ?] ?] H. exact H.
    + intros [[? ?] ?] [[? ?] ?] [[? ?] ?] H. exact H.
    + exists (map (on_triple (fun a b c => (a, b, c))) l
              ++ [on_triple (fun a b c => (a, b, c)) (x1, y1, z1)]).
      split; [reflexivity|]. split; [rewrite H1, Hlen; lia|]. repeat split; assumption.
  - apply andb_true_iff in Ey as [E1 E2]. apply Z.leb_le in E1. apply Z.leb_le in E2.
    destruct (line_loop_walk (fun a b c => (b, a, c)) sy sx sz dy dx dz y1 x1 z1
                Hsy (conj Hdx E1) (conj Hdz E2)
                (Z.to_nat dy) (S (Z.to_nat dy)) y0 x0 z0 0 0 0 (2 * dx - dy) (2 * dz - dy))
      as (l & Hrun & Hlen & Hw); try lia.
    rewrite Hrun.
    destruct (line_built (fun a b c => (b, a, c)) sy sx sz (y0, x0, z0) (y1, x1, z1) l Hsy Hsx Hsz)
      as (H1 & H2 & H3 & H4 & H5); [| |exact Hw|].
    + intros [[? ?] ?] [[? ?] ?]. unfold Producer.adjacent, on_triple.
      intros (? & ? & ? & Hne). repeat split; try assumption. congruence.
    + intros [[? ?] ?] [[? ?] ?] [[? ?] ?]. unfold Producer.in_box, on_triple. tauto.
    + exists (map (on_triple (fun a b c => (b, a, c))) l
              ++ [on_triple (fun a b c => (b, a, c)) (y1, x1, z1)]).
      split; [reflexivity|].
      split; [rewrite H1, Hlen; apply andb_false_iff in Ex as [Ex|Ex]; apply Z.leb_gt in Ex; lia|].
      repeat split; assumption.
  - assert (E1 : dx <= dz /\ dy <= dz).
    { apply andb_false_iff in Ex. apply andb_false_iff in Ey.
      rewrite !Z.leb_gt in Ex, Ey. lia. }
    destruct E1 as [E1 E2].
    destruct (line_loop_walk (fun a b c => (b, c, a)) sz sx sy dz dx dy z1 x1 y1
                Hsz (conj Hdx E1) (conj Hdy E2)
                (Z.to_nat dz) (S (Z.to_nat dz)) z0 x0 y0 0 0 0 (2 * dx - dz) (2 * dy - dz))
      as (l & Hrun & Hlen & Hw); try lia.
    rewrite Hrun.
    destruct (line_built (fun a b c => (b, c, a)) sz sx sy (z0, x0, y0) (z1, x1, y1) l Hsz Hsx Hsy)
      as (H1 & H2 & H3 & H4 & H5); [| |exact Hw|].
    + intros [[? ?] ?] [[? ?] ?]. unfold Producer.adjacent, on_triple.
      intros (? & ? & ? & Hne). repeat split; try assumption. congruence.
    + intros [[? ?] ?] [[? ?] ?] [[? ?] ?]. unfold Producer.in_box, on_triple. tauto.
    + exists (map (on_triple (fun a b c => (b, c, a))) l
              ++ [on_triple (fun a b c => (b, c, a)) (z1, x1, y1)]).
      split; [reflexivity|]. split; [rewrite H1, Hlen; lia|]. repeat split; assumption.
Qed.

(** ** [generate_packet] *)

Lemma pack_B_byte (v : Z) (b : byte) : Producer.pack_B v = Some b -> byte_to_Z b = v.
Proof.
  unfold Producer.pack_B. destruct ((0 <=? v) && (v <=? 255)) eqn:E; [|discriminate].
  apply andb_true_iff in E as [E1 _]. apply Z.leb_le in E1.
  intros H. apply Byte.to_of_N in H. unfold byte_to_Z. rewrite H. lia.
Qed.

Lemma pack_B_in_range (v : Z) : 0 <= v <= 255 -> exists b, Producer.pack_B v = Some b.
Proof.
  intros H. unfold Producer.pack_B.
  assert (E : (0 <=? v) && (v <=? 255) = true)
    by (apply andb_true_iff; split; apply Z.leb_le; lia).
  rewrite E. destruct (Byte.of_N (Z.to_N v)) as [b|] eqn:Eb; [eauto|].
  apply Byte.of_N_None_iff in Eb. lia.
Qed.

(** What [struct.pack] made of the points, [reshape(-1, 4)] reads back. *)
Lemma pack_points_rows (points : list (Z * Z * Z * Z)) (raw : list byte) :
  Producer.pack_points points = Some raw ->
  exists rows, reshape4 raw = Some rows /\ map Producer.tuple_of rows = points.
Proof.
  revert raw. induction points as [|[[[x y] z] c] rest IH]; intros raw H.
  - inversion H. exists []. split; reflexivity.
  - cbn [Producer.pack_points] in H. unfold Producer.pack_BBBB in H.
    destruct (Producer.pack_B x) as [bx|] eqn:Ex; [|discriminate].
    destruct (Producer.pack_B y) as [by_|] eqn:Ey; [|discriminate].
    destruct (Producer.pack_B z) as [bz|] eqn:Ez; [|discriminate].
    destruct (Producer.pack_B c) as [bc|] eqn:Ec; [|discriminate].
    destruct (Producer.pack_points rest) as [raw'|] eqn:Er; [|discriminate].
    inversion H; subst. destruct (IH raw' eq_refl) as (rows & Hr & Hm).
    exists (mk_point bx by_ bz bc :: rows). split.
    + simpl. rewrite Hr. reflexivity.
    + simpl. unfold Producer.tuple_of at 1. simpl.
      rewrite (pack_B_byte _ _ Ex), (pack_B_byte _ _ Ey), (pack_B_byte _ _ Ez),
        (pack_B_byte _ _ Ec), Hm. reflexivity.
Qed.

Lemma generate_packet_inv (gzip_compress : list byte -> list byte)
    (points : list (Z * Z * Z * Z)) (pkt : list byte) :
  Producer.generate_packet gzip_compress points = Some pkt ->
  exists raw,
    Producer.pack_points (sent_points points) = Some raw /\
    pkt = wire_frame (gzip_compress raw).
Proof.
  unfold Producer.generate_packet, sent_points. intros H.
  assert (E : (if Producer.MAX_POINTS_PER_FRAME <? Z.of_nat (length points)
               then take (Z.to_nat Producer.MAX_POINTS_PER_FRAME) points else points)
              = take (Z.to_nat Producer.MAX_POINTS_PER_FRAME) points).
  { destruct (Producer.MAX_POINTS_PER_FRAME <? Z.of_nat (length points)) eqn:E; [reflexivity|].
    apply Z.ltb_ge in E. rewrite take_ge; [reflexivity | lia]. }
  rewrite E in H.
  destruct (Producer.pack_points _) as [raw|]; [|discriminate].
  destruct (Z.of_nat (length (gzip_compress raw)) <? 4294967296); [|discriminate].
  inversion H. exists raw. split; reflexivity.
Qed.

(** X13. A packet that [generate_packet] builds, received by
    [handle_client]: when the compressed payload is within the receiver's
    limit and decompresses to what was compressed, the iteration leaves the
    connection open and appends to the queue a payload whose rows are, in
    order, the first 100,000 points of the producer; points beyond those
    are not sent. *)
Theorem packet_reaches_queue (gzip_compress : list byte -> list byte)
    (gzip_decompress : list byte -> gz_result)
    (points : list (Z * Z * Z * Z)) (pkt rest : list byte) (q : list (list byte)) :
  Producer.generate_packet gzip_compress points = Some pkt ->
  Z.of_nat (length pkt) <= max_packet_length + 8 ->
  (forall raw, Producer.pack_points (sent_points points) = Some raw ->
               gzip_decompress (gzip_compress raw) = GzOk raw) ->
  exists raw rows,
    handle_iteration gzip_decompress (pkt ++ rest) q
      = (Open rest, deque_append frame_queue_maxlen q raw) /\
    reshape4 raw = Some rows /\
    map Producer.tuple_of rows = sent_points points.
Proof.
  intros Hgen Hlen Hgz.
  destruct (generate_packet_inv _ _ _ Hgen) as (raw & Hpack & ->).
  destruct (pack_points_rows _ _ Hpack) as (rows & Hrows & Hmap).
  exists raw, rows. split; [|split; assumption].
  rewrite wire_frame_app, handle_iteration_frame, (Hgz raw Hpack); [reflexivity | reflexivity |].
  unfold wire_frame in Hlen. rewrite !length_app in Hlen. simpl in Hlen. lia.
Qed.

Lemma packet_reaches_queue_witness :
  exists raw rows,
    handle_iteration stored_decompress
      (wire_frame (Producer.stored_compress [x01; x02; x03; xff; x7f; x7f; x3f; x00]) ++ []) []
      = (Open [], deque_append frame_queue_maxlen [] raw) /\
    reshape4 raw = Some rows /\
    map Producer.tuple_of rows = sent_points [(1, 2, 3, 255); (127, 127, 63, 0)].
Proof.
  apply (packet_reaches_queue Producer.stored_compress stored_decompress
           [(1, 2, 3, 255); (127, 127, 63, 0)]).
  - reflexivity.
  - vm_compute. discriminate.
  - intros raw H. vm_compute in H. inversion H. reflexivity.
Defined.

Lemma pack_points_sendable (points : list (Z * Z * Z * Z)) :
  Forall sendable points -> exists raw, Producer.pack_points points = Some raw.
Proof.
  intros H. induction H as [|p rest Hp _ [raw IH]]; [exists []; reflexivity|].
  destruct p as [[[x y] z] c]. destruct Hp as [Hb Hc].
  unfold Producer.is_in_bounds, Producer.VOX_X, Producer.VOX_Y, Producer.VOX_Z in Hb.
  rewrite !andb_true_iff, !Z.leb_le, !Z.ltb_lt in Hb.
  destruct (pack_B_in_range x) as [bx Ex]; [lia|].
  destruct (pack_B_in_range y) as [by_ Ey]; [lia|].
  destruct (pack_B_in_range z) as [bz Ez]; [lia|].
  destruct (pack_B_in_range c) as [bc Ec]; [lia|].
  cbn [Producer.pack_points]. unfold Producer.pack_BBBB. rewrite Ex, Ey, Ez, Ec, IH. eauto.
Qed.

Lemma sendable_rows_valid (rows : list point) :
  Forall sendable (map Producer.tuple_of rows) ->
  Forall (fun p => valid_point p = true) rows.
Proof.
  induction rows as [|p rows IH]; intros H; [constructor|].
  inversion H as [|? ? Hp Hrest]; subst. constructor; [|apply IH, Hrest].
  unfold sendable, Producer.tuple_of in Hp. destruct Hp as [Hb _].
  unfold Producer.is_in_bounds, Producer.VOX_X, Producer.VOX_Y, Producer.VOX_Z in Hb.
  rewrite !andb_true_iff, !Z.leb_le, !Z.ltb_lt in Hb.
  apply valid_point_bounds. lia.
Qed.

Lemma all_valid_none_invalid (rows : list point) :
  Forall (fun p => valid_point p = true) rows ->
  count_invalid rows = 0%nat /\ filter (fun p => valid_point p = true) rows = rows.
Proof.
  intros H. induction H as [|p rows Hp _ [IH1 IH2]]; [split; reflexivity|].
  rewrite count_invalid_cons, filter_valid_cons, Hp, IH1, IH2. split; reflexivity.
Qed.

(** X14. The producer's bounds check is the receiver's. For a non-empty
    list of points that [is_in_bounds] accepts, with colours of one byte:
    [struct.pack] does not raise, and the processing thread, given the
    packed bytes with [page] in 0..1, counts no row invalid, stores every
    point, in order, and flips. *)
Theorem sendable_points_all_drawn (points : list (Z * Z * Z * Z)) (s : rstate) :
  Forall sendable points -> points <> [] -> page_ok s ->
  exists raw rows tr,
    Producer.pack_points points = Some raw /\
    map Producer.tuple_of rows = points /\
    fst (process_frame raw s) = Ok (Flipped 0 (length points)) /\
    trace (snd (process_frame raw s)) = trace s ++ tr /\
    stores_of tr = map (store_event (write_page_of s)) rows.
Proof.
  intros Hs Hne Hp.
  destruct (pack_points_sendable _ Hs) as [raw Hraw].
  destruct (pack_points_rows _ _ Hraw) as (rows & Hrows & Hmap).
  assert (Hvalid : Forall (fun p => valid_point p = true) rows)
    by (apply sendable_rows_valid; rewrite Hmap; exact Hs).
  destruct (all_valid_none_invalid _ Hvalid) as [Hc Hf].
  assert (Hrne : rows <> []) by (intros ->; apply Hne; symmetry; exact Hmap).
  destruct (process_frame_flipped _ _ _ _ (view_page_ok s Hp) Hrows Hrne)
    as (s1 & Hrun & _ & _ & Htr & _).
  rewrite Hc, Hf in Hrun. rewrite Hf in Htr.
  exists raw, rows. eexists. split; [exact Hraw|]. split; [exact Hmap|].
  rewrite Hrun. cbn [fst snd]. split; [rewrite <- Hmap, length_map; reflexivity|].
  split; [exact Htr|].
  rewrite !stores_of_app, stores_of_store_events. simpl. rewrite app_nil_r. reflexivity.
Qed.

Lemma sendable_points_all_drawn_witness :
  exists raw rows tr,
    Producer.pack_points [(1, 2, 3, 255); (127, 127, 63, 28)] = Some raw /\
    map Producer.tuple_of rows = [(1, 2, 3, 255); (127, 127, 63, 28)] /\
    fst (process_frame raw (start_state (region xaa x00))) = Ok (Flipped 0 2) /\
    trace (snd (process_frame raw (start_state (region xaa x00)))) = [] ++ tr /\
    stores_of tr = map (store_event 1) rows.
Proof.
  apply (sendable_points_all_drawn [(1, 2, 3, 255); (127, 127, 63, 28)]
           (start_state (region xaa x00))).
  - repeat constructor; vm_compute; discriminate.
  - discriminate.
  - left. reflexivity.
Defined.

(** * The older receiver *)

(** ** Its queue *)

Lemma legacy_offer_cases (q : list (list byte)) (d : list byte) :
  Legacy.offer q d
  = Returns (if (Legacy.data_queue_maxsize <=? length q)%nat then q else q ++ [d]).
Proof.
  unfold Legacy.offer, Legacy.put, Legacy.full.
  destruct (Legacy.data_queue_maxsize <=? length q)%nat; reflexivity.
Qed.

(** X15. The older receiver's [Queue(maxsize=2)] with
    [if not data_queue.full(): data_queue.put(...)]: an offer never blocks,
    although [put] alone would on a full queue; a payload offered to a full
    queue is the one that is lost; so after any offers the queue holds the
    two oldest payloads, and [get] returns the oldest first. *)
Theorem legacy_queue_keeps_first_two (q ds : list (list byte)) :
  (length q <= Legacy.data_queue_maxsize)%nat ->
  Legacy.offer_all q ds = Returns (take Legacy.data_queue_maxsize (q ++ ds)) /\
  (forall d, Legacy.put (take Legacy.data_queue_maxsize (q ++ ds)) d = Blocks
             <-> (Legacy.data_queue_maxsize <= length (q ++ ds))%nat) /\
  (forall d rest, take Legacy.data_queue_maxsize (q ++ ds) = d :: rest ->
                  Legacy.get (d :: rest) = Returns (d, rest) /\ head (q ++ ds) = Some d).
Proof.
  intros Hq. split; [|split].
  - revert q Hq. induction ds as [|d ds IH]; intros q Hq.
    + simpl. rewrite app_nil_r, take_ge by exact Hq. reflexivity.
    + cbn [Legacy.offer_all]. rewrite legacy_offer_cases.
      destruct (Legacy.data_queue_maxsize <=? length q)%nat eqn:E.
      * apply Nat.leb_le in E. rewrite IH by exact Hq.
        rewrite !take_app_le by lia. reflexivity.
      * apply Nat.leb_gt in E. rewrite IH.
        -- rewrite <- app_assoc. reflexivity.
        -- rewrite length_app. simpl. lia.
  - intros d. unfold Legacy.put, Legacy.full. rewrite length_take.
    destruct (Legacy.data_queue_maxsize <=? _)%nat eqn:E.
    + apply Nat.leb_le in E. split; [intros _; lia | reflexivity].
    + apply Nat.leb_gt in E. split; [discriminate | intros H; lia].
  - intros d rest H. split; [reflexivity|].
    destruct (q ++ ds) as [|x l]; [rewrite take_nil in H; discriminate|].
    unfold Legacy.data_queue_maxsize in H. simpl in H. inversion H. reflexivity.
Qed.

Lemma legacy_queue_keeps_first_two_witness :
  Legacy.offer_all [[x0a]] [[x0b]; [x0c]; [x0d]] = Returns [[x0a]; [x0b]].
Proof.
  destruct (legacy_queue_keeps_first_two [[x0a]] [[x0b]; [x0c]; [x0d]]) as [H _].
  - unfold Legacy.data_queue_maxsize. simpl. lia.
  - exact H.
Defined.

(** ** Its processing thread *)

Lemma forallb_valid_filter (pts : list point) :
  forallb valid_point pts = true -> filter (fun p => valid_point p = true) pts = pts.
Proof.
  induction pts as [|p pts IH]; [reflexivity|]. simpl. intros H.
  apply andb_true_iff in H as [Hp Hrest]. rewrite filter_valid_cons, Hp, IH by exact Hrest.
  reflexivity.
Qed.

Lemma legacy_filter_stage {A} (pts : list point) (k : list point -> M A) (s : rstate) :
  bind (if negb (forallb valid_point pts)
        then bind (print (LogFiltered (count_invalid pts)))
               (fun _ => ret (filter (fun p => valid_point p = true) pts))
        else ret pts) k s
  = k (filter (fun p => valid_point p = true) pts) (legacy_after_filter pts s).
Proof.
  unfold legacy_after_filter. destruct (forallb valid_point pts) eqn:E; simpl.
  - unfold bind, ret. rewrite forallb_valid_filter by exact E. reflexivity.
  - reflexivity.
Qed.

(** The older iteration on a payload without a partial row, empty or not. *)
Lemma legacy_frame_rows (data : list byte) (pts : list point) (s : rstate) :
  page_ok s -> reshape4 data = Some pts ->
  let kept := filter (fun p => valid_point p = true) pts in
  exists s',
    Legacy.process_frame data s = (Ok (Flipped (count_invalid pts) (length kept)), s') /\
    buffers (shm s')
      = paint (write_page_of s) kept (clear_page (write_page_of s) (buffers (shm s))) /\
    page (shm s') = c_uint8 (write_page_of s) /\
    trace s' = trace s ++ [EvReadPage (page (shm s)); EvFill (write_page_of s)]
                       ++ map (store_event (write_page_of s)) kept
                       ++ [EvWritePage (c_uint8 (write_page_of s))].
Proof.
  intros Hp Hr kept.
  unfold Legacy.process_frame, try_except, Legacy.process_frame_body.
  unfold bind at 1. unfold read_page at 1. fold (write_page_of s). cbv zeta.
  unfold bind at 1. unfold Legacy.memset_page at 1. fold (after_clear (write_page_of s) s).
  rewrite Hr. unfold bind at 1. unfold ret at 1.
  rewrite legacy_filter_stage. fold kept.
  unfold bind at 1. rewrite (view_at_Some _ _ _ (view_page_ok s Hp)).
  unfold bind at 1. rewrite scatter_spec.
  unfold bind at 1. unfold write_page_field at 1. unfold ret.
  eexists. split; [reflexivity|].
  unfold legacy_after_filter. destruct (forallb valid_point pts); simpl;
    (split; [reflexivity|]; split; [reflexivity|]; rewrite <- !app_assoc; reflexivity).
Qed.

Lemma legacy_frame_partial (data : list byte) (s : rstate) :
  page_ok s -> (length data mod 4 <> 0)%nat ->
  Legacy.process_frame data s
  = (Ok (Failed ValueError),
     snd (print (LogFrameError ValueError) (after_clear (write_page_of s) s))).
Proof.
  intros _ Hm.
  unfold Legacy.process_frame, try_except, Legacy.process_frame_body.
  unfold bind at 1. unfold read_page at 1. fold (write_page_of s). cbv zeta.
  unfold bind at 1. unfold Legacy.memset_page at 1. fold (after_clear (write_page_of s) s).
  rewrite (reshape4_not_multiple _ Hm). reflexivity.
Qed.

(** X16. On every payload of at least four bytes, with [page] in 0..1, the
    two receivers do the same to the shared region: the same outcome, the
    same accesses in the same order, the same bytes in [buffers] and the
    same [page] afterwards. *)
Theorem receivers_agree_from_four_bytes (data : list byte) (s : rstate) :
  page_ok s -> (4 <= length data)%nat ->
  fst (Legacy.process_frame data s) = fst (process_frame data s) /\
  trace (snd (Legacy.process_frame data s)) = trace (snd (process_frame data s)) /\
  buffers (shm (snd (Legacy.process_frame data s)))
    = buffers (shm (snd (process_frame data s))) /\
  page (shm (snd (Legacy.process_frame data s))) = page (shm (snd (process_frame data s))).
Proof.
  intros Hp H4. pose proof (view_page_ok s Hp) as Hv.
  destruct (payload_cases data) as [Hs | [[Hl Hm] | (pts & Hr & Hne)]]; [lia | |].
  - rewrite (legacy_frame_partial _ _ Hp Hm), (process_frame_partial _ _ _ Hv Hl Hm).
    repeat split.
  - destruct (legacy_frame_rows _ _ _ Hp Hr) as (s1 & Hrun1 & Hb1 & Hp1 & Ht1).
    destruct (process_frame_flipped _ _ _ _ Hv Hr Hne) as (s2 & Hrun2 & Hb2 & Hp2 & Ht2 & _).
    rewrite Hrun1, Hrun2. cbn [fst snd]. rewrite Hb1, Hb2, Hp1, Hp2, Ht1, Ht2.
    repeat split.
Qed.

Lemma receivers_agree_from_four_bytes_witness :
  let s := start_state (region xaa x01) in
  fst (Legacy.process_frame [xc8; x00; x00; xaa; x00; x00; x00; x55] s)
  = fst (process_frame [xc8; x00; x00; xaa; x00; x00; x00; x55] s).
Proof.
  apply (receivers_agree_from_four_bytes [xc8; x00; x00; xaa; x00; x00; x00; x55]
           (start_state (region xaa x01))).
  - right. reflexivity.
  - simpl. lia.
Defined.

(** X17. Below four bytes the two receivers differ. The older one flips
    on the empty payload, showing a page of zeros, and fails with
    [ValueError] on one to three bytes; the current one skips all of them
    without a message. Neither changes [page] on one to three bytes. *)
Theorem receivers_differ_below_four_bytes (data : list byte) (s : rstate) :
  page_ok s -> (length data < 4)%nat ->
  fst (process_frame data s) = Ok Skipped /\
  page (shm (snd (process_frame data s))) = page (shm s) /\
  fst (Legacy.process_frame data s)
    = Ok (if (length data =? 0)%nat then Flipped 0 0 else Failed ValueError) /\
  byte_to_Z (page (shm (snd (Legacy.process_frame data s))))
    = (if (length data =? 0)%nat then write_page_of s else byte_to_Z (page (shm s))) /\
  (forall j, 0 <= j < voxels_count ->
     buffers (shm (snd (Legacy.process_frame data s))) (write_page_of s * voxels_count + j) = x00).
Proof.
  intros Hp Hs. pose proof (view_page_ok s Hp) as Hv.
  rewrite (process_frame_skipped _ _ _ Hv Hs). cbn [fst snd].
  split; [reflexivity|]. split; [reflexivity|].
  assert (Hz : forall j, 0 <= j < voxels_count ->
            clear_page (write_page_of s) (buffers (shm s)) (write_page_of s * voxels_count + j) = x00).
  { intros j Hj. unfold clear_page. rewrite in_page_offset by exact Hj. reflexivity. }
  destruct data as [|b0 data].
  - destruct (legacy_frame_rows [] [] s Hp eq_refl) as (s1 & Hrun & Hb & Hpg & _).
    rewrite Hrun. cbn [fst snd length Nat.eqb]. split; [reflexivity|].
    split; [rewrite Hpg; apply c_uint8_write_page, Hp|].
    intros j Hj. rewrite Hb. simpl. apply Hz, Hj.
  - assert (Hm : (length (b0 :: data) mod 4 <> 0)%nat).
    { rewrite Nat.mod_small by exact Hs. simpl. discriminate. }
    rewrite (legacy_frame_partial _ _ Hp Hm). cbn [fst snd length Nat.eqb].
    split; [reflexivity|]. split; [reflexivity|]. exact Hz.
Qed.

Lemma receivers_differ_below_four_bytes_witness :
  let s := start_state (region xaa x00) in
  fst (process_frame [] s) = Ok Skipped /\
  fst (Legacy.process_frame [] s) = Ok (Flipped 0 0).
Proof.
  destruct (receivers_differ_below_four_bytes [] (start_state (region xaa x00)))
    as (H1 & _ & H2 & _).
  - left. reflexivity.
  - simpl. lia.
  - split; [exact H1 | exact H2].
Defined.

(** ** Its handler *)

(** X18. The older handler on a whole frame, for any length field below
    2^32 (there is no limit): a payload that decompresses is put in the
    queue unless two payloads wait there already, in which case it is the
    new one that is dropped; [BadGzipFile] skips the frame; any other
    decompression error closes the connection. *)
Theorem legacy_handler_on_frame (gzip_decompress : list byte -> gz_result)
    (compressed rest : list byte) (q : list (list byte)) :
  Z.of_nat (length compressed) < 4294967296 ->
  Legacy.handle_iteration gzip_decompress (wire_frame compressed ++ rest) q
  = match gzip_decompress compressed with
    | GzOk d => (Open rest, if (Legacy.data_queue_maxsize <=? length q)%nat then q else q ++ [d])
    | GzBadGzipFile => (Open rest, q)
    | GzError => (ConnClosed OtherException, q)
    end.
Proof.
  intros HL. rewrite wire_frame_app. unfold Legacy.handle_iteration.
  set (L := Z.of_nat (length compressed)) in *.
  replace (signature ++ pack_u32_be L ++ compressed ++ rest)
    with ((signature ++ pack_u32_be L) ++ compressed ++ rest) by (rewrite <- app_assoc; reflexivity).
  rewrite (readexactly_app 8 (signature ++ pack_u32_be L)) by reflexivity.
  change (take 4 (signature ++ pack_u32_be L)) with signature.
  change (drop 4 (signature ++ pack_u32_be L)) with (pack_u32_be L).
  change (negb (bytes_eqb signature signature)) with false. cbv iota.
  rewrite unpack_pack by (subst L; lia).
  rewrite (readexactly_app L compressed rest eq_refl).
  destruct (gzip_decompress compressed); try reflexivity.
  rewrite legacy_offer_cases. reflexivity.
Qed.

Lemma legacy_handler_on_frame_witness :
  Legacy.handle_iteration stored_decompress
    (wire_frame [x1f; x8b; x01; x07] ++ [xff]) [[x01]; [x02]]
  = (Open [xff], [[x01]; [x02]]).
Proof.
  apply (legacy_handler_on_frame stored_decompress [x1f; x8b; x01; x07] [xff] [[x01]; [x02]]).
  vm_compute. reflexivity.
Defined.

(** * The frame counter *)

Lemma reports_app (a b : list log_line) : reports (a ++ b) = (reports a + reports b)%nat.
Proof. unfold reports. rewrite filter_app, length_app. reflexivity. Qed.

(** One flipped frame: the counter grows by one, and the report is printed
    when it is 100 ahead of the last report. *)
Lemma frame_report (data : list byte) (s : rstate) :
  page_ok s -> whole_payload data = true ->
  let s' := snd (process_frame data s) in
  frame_count s' = frame_count s + 1 /\
  (last_print s' = if 100 <=? frame_count s + 1 - last_print s
                   then frame_count s + 1 else last_print s) /\
  reports (stdout s')
    = (reports (stdout s) + (if (100 <=? frame_count s + 1 - last_print s)%Z then 1 else 0))%nat.
Proof.
  intros Hp Hw. cbv zeta. destruct (whole_payload_rows _ Hw) as (pts & Hr & Hne & _).
  destruct (process_frame_flipped_state _ _ _ _ (view_page_ok s Hp) Hr Hne)
    as (st & Hrun & _ & _ & _ & Hfc & Hlp & Hout).
  rewrite Hrun. cbn [snd].
  destruct (count_frame_counters (length (filter (fun p => valid_point p = true) pts)) st)
    as (H1 & H2 & H3).
  rewrite H1, H2, H3, Hfc, Hlp, Hout. split; [reflexivity|]. split; [reflexivity|].
  rewrite !reports_app.
  assert (E1 : reports (if (10 <? count_invalid pts)%nat
                        then [LogFiltered (count_invalid pts)] else []) = 0%nat)
    by (destruct (10 <? count_invalid pts)%nat; reflexivity).
  rewrite E1. destruct (100 <=? frame_count s + 1 - last_print s); unfold reports; simpl; lia.
Qed.

(** X19. The report of the processing thread. From a state in which
    [page] is in 0..1 and the counter is fewer than 100 frames ahead of the
    last report, after any number of payloads of whole rows: the counter
    has grown by their number, it is again fewer than 100 ahead of the last
    report, and the number of reports printed on the way is the number of
    times the distance reached 100. *)
Theorem report_every_hundred_frames (frames : list (list byte)) (s : rstate) :
  page_ok s ->
  0 <= frame_count s - last_print s < 100 ->
  Forall (fun data => whole_payload data = true) frames ->
  let s' := snd (process_frames frames s) in
  let ahead := frame_count s - last_print s in
  frame_count s' = frame_count s + Z.of_nat (length frames) /\
  frame_count s' - last_print s' = (ahead + Z.of_nat (length frames)) mod 100 /\
  Z.of_nat (reports (stdout s'))
    = Z.of_nat (reports (stdout s)) + (ahead + Z.of_nat (length frames)) / 100.
Proof.
  intros Hp Hahead Hall. revert s Hp Hahead.
  induction Hall as [|data rest Hw _ IH]; intros s Hp Hahead; cbv zeta.
  - simpl. split; [lia|]. rewrite Z.add_0_r.
    rewrite Z.mod_small, Z.div_small by lia. lia.
  - destruct (frame_report data s Hp Hw) as (Hfc & Hlp & Hrep). cbv zeta in Hfc, Hlp, Hrep.
    destruct (frame_trace_shape data s Hp) as (_ & _ & _ & Hp1).
    destruct (process_frame_returns data s) as (o & s1 & Hrun).
    simpl process_frames. rewrite Hrun in *. cbn [snd] in Hfc, Hlp, Hrep, Hp1.
    assert (Hahead1 : 0 <= frame_count s1 - last_print s1 < 100).
    { rewrite Hfc, Hlp. destruct (100 <=? frame_count s + 1 - last_print s) eqn:E;
        [apply Z.leb_le in E | apply Z.leb_gt in E]; lia. }
    specialize (IH s1 Hp1 Hahead1). cbv zeta in IH.
    destruct (process_frames rest s1) as [os s2]. cbn [snd] in *.
    destruct IH as (IH1 & IH2 & IH3).
    rewrite IH2, IH3, IH1, Hrep. cbn [length]. rewrite Nat2Z.inj_succ, Nat2Z.inj_add.
    set (n := Z.of_nat (length rest)) in *. assert (Hn : 0 <= n) by (subst n; lia).
    destruct (100 <=? frame_count s + 1 - last_print s) eqn:E;
      [apply Z.leb_le in E | apply Z.leb_gt in E].
    + assert (Hd : frame_count s - last_print s = 99) by lia.
      assert (Hd1 : frame_count s1 - last_print s1 = 0) by lia.
      rewrite Hd, Hd1. split; [lia|].
      split; Z.to_euclidean_division_equations; lia.
    + assert (Hd1 : frame_count s1 - last_print s1 = frame_count s - last_print s + 1) by lia.
      rewrite Hd1.
      replace (frame_count s - last_print s + Z.succ n)
        with (frame_count s - last_print s + 1 + n) by lia.
      split; [lia|]. split; [reflexivity|]. simpl. lia.
Qed.

Lemma report_every_hundred_frames_witness :
  let s := mk_rstate (region xaa x00) 199 100 [] [] in
  let s' := snd (process_frames [[x01; x01; x01; xff]; [x02; x02; x02; x1c]] s) in
  frame_count s' = 201 /\ Z.of_nat (reports (stdout s')) = 1.
Proof.
  destruct (report_every_hundred_frames [[x01; x01; x01; xff]; [x02; x02; x02; x1c]]
              (mk_rstate (region xaa x00) 199 100 [] [])) as (H1 & _ & H3).
  - left. reflexivity.
  - simpl. lia.
  - repeat constructor.
  - split; [exact H1 | exact H3].
Defined.
